(** * An in-memory CRUD service over users and items

    Shallow embedding of the Express handlers of [main.js] (users and
    items with a description) and [index.js] (items with a name only),
    with the part of the JavaScript semantics the handlers rely on:
    truthiness of JSON values, [parseInt(_, 10)], [Array.prototype.find],
    [findIndex], [push] and [splice], and the routing of a request to
    the first registered handler whose path pattern matches. *)

From Stdlib Require Import ZArith NArith Lia Ascii String.
From stdpp Require Import base decidable option list sets strings.

Local Open Scope Z_scope.
Set Warnings "-register-all".

(** ** JavaScript values carried by a JSON body *)

(** A value found under a key of [req.body].  [VUndefined] stands for a
    key that is absent.  Numbers are kept as integers: the handlers only
    test a number for truthiness and store it, so any other non-zero
    number behaves as a non-zero integer does. *)
Inductive JsVal : Type :=
  | VUndefined
  | VNull
  | VBool (b : bool)
  | VNum (n : Z)
  | VStr (s : string)
  | VArr (elems : list JsVal)
  | VObj (props : list (string * JsVal)).

(** [ToBoolean]: what [!v] and [v || d] look at. *)
Definition truthy (v : JsVal) : bool :=
  match v with
  | VUndefined | VNull => false
  | VBool b => b
  | VNum n => negb (n =? 0)
  | VStr s => negb (String.eqb s "")
  | VArr _ | VObj _ => true
  end.

(** [a || b] *)
Definition js_or (a b : JsVal) : JsVal := if truthy a then a else b.

(** The request body after [express.json()]: an object.  A key given
    twice keeps its last value, as [JSON.parse] does. *)
Abbreviation JsObject := (list (string * JsVal)).

Fixpoint prop (o : JsObject) (k : string) : JsVal :=
  match o with
  | [] => VUndefined
  | (k', v) :: rest =>
      match prop rest k with
      | VUndefined => if String.eqb k' k then v else VUndefined
      | later => later
      end
  end.

(** ** Strings of code units and [parseInt] *)

(** A path segment after URL decoding, as its UTF-16 code units. *)
Abbreviation CodeUnits := (list N).

Definition units (s : string) : CodeUnits :=
  (fun a => N_of_ascii a) <$> list_ascii_of_string s.

(** [StrWhiteSpaceChar]: white space and line terminators. *)
Definition is_white_space (c : N) : bool :=
  ((9 <=? c) && (c <=? 13) || (c =? 32) || (c =? 160) || (c =? 5760)
   || (8192 <=? c) && (c <=? 8202) || (c =? 8232) || (c =? 8233)
   || (c =? 8239) || (c =? 8287) || (c =? 12288) || (c =? 65279))%N.

Fixpoint trim_start (s : CodeUnits) : CodeUnits :=
  match s with
  | c :: rest => if is_white_space c then trim_start rest else s
  | [] => []
  end.

Definition is_digit (c : N) : bool := ((48 <=? c) && (c <=? 57))%N.

(** The longest prefix made of radix-10 digits. *)
Fixpoint digit_prefix (s : CodeUnits) : CodeUnits :=
  match s with
  | c :: rest => if is_digit c then c :: digit_prefix rest else []
  | [] => []
  end.

(** The mathematical integer a string of digits denotes. *)
Definition mathInt_from (a : Z) (ds : CodeUnits) : Z :=
  fold_left (fun acc c => 10 * acc + (Z.of_N c - 48)) ds a.

Definition mathInt (ds : CodeUnits) : Z := mathInt_from 0 ds.

(** [parseInt(s, 10)]; [None] is [NaN].  The result is exact, which
    agrees with the double the engine returns below 2^53; every id in a
    store is far below that bound (a seed id or a length plus one). *)
Definition parseInt (s : CodeUnits) : option Z :=
  let trimmed := trim_start s in
  let '(sign, rest) :=
    match trimmed with
    | 45%N :: rest => (-1, rest)
    | 43%N :: rest => (1, rest)
    | _ => (1, trimmed)
    end in
  match digit_prefix rest with
  | [] => None
  | ds => Some (sign * mathInt ds)
  end.

(** [req.params.id] is a string when the route declares [:id] and
    [undefined] otherwise; [parseInt] first turns its argument into a
    string. *)
Definition param_string (p : option CodeUnits) : CodeUnits :=
  match p with
  | Some s => s
  | None => units "undefined"
  end.

Definition parseInt_param (p : option CodeUnits) : option Z :=
  parseInt (param_string p).

(** [x === y] for a stored id [x] and the outcome [y] of [parseInt]:
    [NaN] is equal to nothing. *)
Definition strict_eq (x : Z) (y : option Z) : Prop := y = Some x.

Global Instance strict_eq_dec x y : Decision (strict_eq x y).
Proof. unfold strict_eq. solve_decision. Defined.

(** The decimal numeral of an integer: how a client writes an id it was
    given into the path of its next request. *)
Fixpoint digits_of (fuel : nat) (n : N) (acc : CodeUnits) : CodeUnits :=
  match fuel with
  | O => acc
  | S fuel' =>
      let acc' := (48 + n mod 10)%N :: acc in
      if (n / 10 =? 0)%N then acc' else digits_of fuel' (n / 10)%N acc'
  end.

Definition numeral (n : N) : CodeUnits :=
  digits_of (S (N.to_nat (N.size n))) n [].

Definition decimal_segment (z : Z) : CodeUnits :=
  match z with
  | Z0 => numeral 0
  | Zpos p => numeral (Npos p)
  | Zneg p => 45%N :: numeral (Npos p)
  end.

(** ** Routing *)

Inductive Method : Type := GET | POST | PUT | DELETE.

Global Instance Method_eq_dec : EqDecision Method.
Proof. solve_decision. Defined.

(** A request as the router sees it: the verb, the path split at its
    slashes into decoded, non-empty segments, and the parsed JSON body
    (the empty object when the request carries none). *)
Record Request : Type := mkRequest {
  method : Method;
  path : list CodeUnits;
  body : JsObject;
}.

(** One segment of a route path: literal text, or a named parameter
    written [:name] in the source. *)
Inductive PathSeg : Type :=
  | Lit (text : string)
  | Param (name : string).

Fixpoint split_slash (cs cur : list ascii) : list (list ascii) :=
  match cs with
  | [] => match cur with [] => [] | _ => [rev cur] end
  | c :: rest =>
      if Ascii.eqb c "/"
      then match cur with [] => [] | _ => [rev cur] end ++ split_slash rest []
      else split_slash rest (c :: cur)
  end.

Definition path_segments (s : string) : list string :=
  string_of_list_ascii <$> split_slash (list_ascii_of_string s) [].

Definition parse_pattern (s : string) : list PathSeg :=
  (fun seg => match seg with
              | String ":" name => Param name
              | _ => Lit seg
              end) <$> path_segments s.

(** The path of a request written as text, for examples. *)
Definition path_of (s : string) : list CodeUnits := units <$> path_segments s.

(** Literal text is compared without regard to the case of ASCII
    letters (Express routes are case-insensitive unless configured
    otherwise). *)
Definition to_upper (c : N) : N :=
  if ((97 <=? c) && (c <=? 122))%N then (c - 32)%N else c.

Definition same_text (a b : CodeUnits) : bool :=
  bool_decide (to_upper <$> a = to_upper <$> b).

Abbreviation Params := (list (string * CodeUnits)).

(** [req.params.name]; [None] is [undefined]. *)
Fixpoint param (ps : Params) (name : string) : option CodeUnits :=
  match ps with
  | [] => None
  | (n, v) :: rest => if String.eqb n name then Some v else param rest name
  end.

(** The parameters a path binds when it matches a pattern. *)
Fixpoint match_path (pat : list PathSeg) (p : list CodeUnits) : option Params :=
  match pat, p with
  | [], [] => Some []
  | Lit text :: pat', seg :: p' =>
      if same_text seg (units text) then match_path pat' p' else None
  | Param name :: pat', seg :: p' =>
      match seg with
      | [] => None
      | _ => (fun ps => (name, seg) :: ps) <$> match_path pat' p'
      end
  | _, _ => None
  end.

Section Router.
Context {State Response : Type}.

Definition Handler : Type := Params -> JsObject -> State -> Response * State.

(** [app.METHOD(path, handler)] *)
Definition Route : Type := Method * string * Handler.

(** The first registered route that matches handles the request (no
    handler of this program passes control on).  [None] is the reply
    of the framework itself when no route matches. *)
Fixpoint dispatch (routes : list Route) (req : Request) (st : State)
  : option Response * State :=
  match routes with
  | [] => (None, st)
  | (m, pat, h) :: rest =>
      if decide (m = method req) then
        match match_path (parse_pattern pat) (path req) with
        | Some ps => let '(r, st') := h ps (body req) st in (Some r, st')
        | None => dispatch rest req st
        end
      else dispatch rest req st
  end.

(** Requests are handled one after the other, each to completion. *)
Fixpoint run (routes : list Route) (reqs : list Request) (st : State)
  : list (option Response) * State :=
  match reqs with
  | [] => ([], st)
  | req :: rest =>
      let '(r, st') := dispatch routes req st in
      let '(rs, st'') := run routes rest st' in
      (r :: rs, st'')
  end.
End Router.

(** ** Lookup in a store *)

Section Store.
Context {A : Type} (ident : A -> Z).

(** [store.find(e => e.id === k)] and [store.findIndex(...)] in one:
    the first position whose entity has id [k], with that entity. *)
Definition find_by_id (k : option Z) (store : list A) : option (nat * A) :=
  list_find (fun e => strict_eq (ident e) k) store.

(** [store.length + 1] *)
Definition next_id (store : list A) : Z := Z.of_nat (length store) + 1.

(** Ids that follow the positions: the entity at index [i] has id [i + 1]. *)
Definition dense (store : list A) : Prop :=
  forall i e, store !! i = Some e -> ident e = Z.of_nat i + 1.
End Store.

(** ** [main.js]: users and items *)

Module Main.

Module User.
Record t : Type := mk {
  id : Z;
  username : JsVal;
  firstName : JsVal;
  lastName : JsVal;
  email : JsVal;
  password : JsVal;
  phone : JsVal;
  userStatus : JsVal;
}.
End User.

Module Item.
Record t : Type := mk {
  id : Z;
  name : JsVal;
  discription : JsVal;
}.
End Item.

(** The two module-level arrays. *)
Record State : Type := mkState {
  users : list User.t;
  items : list Item.t;
}.

Definition set_users (st : State) (us : list User.t) : State :=
  {| users := us; items := items st |}.

Definition set_items (st : State) (its : list Item.t) : State :=
  {| users := users st; items := its |}.

(** The arrays as the module initialises them. *)
Definition seed : State :=
  {| users :=
       [ {| User.id := 10;
            User.username := VStr "theUser";
            User.firstName := VStr "John";
            User.lastName := VStr "James";
            User.email := VStr "john@email.com";
            User.password := VStr "12345";
            User.phone := VStr "12345";
            User.userStatus := VNum 1 |} ];
     items :=
       [ {| Item.id := 1; Item.name := VStr "Item 1";
            Item.discription := VStr "product info" |};
         {| Item.id := 2; Item.name := VStr "Item 2";
            Item.discription := VStr "product info" |} ] |}.

(** What [res.json] is given. *)
Inductive Json : Type :=
  | JUsers (us : list User.t)
  | JUser (u : User.t)
  | JItems (its : list Item.t)
  | JItem (i : Item.t)
  | JMessage (message : string).

(** [res.status(code).json(value)] *)
Record Response : Type := mkResponse {
  status : nat;
  json : Json;
}.

Definition H : Type := @Handler State Response.

(** [!username || !firstName || !lastName || !email || !password || !phone] *)
Definition user_fields_missing (b : JsObject) : bool :=
  negb (truthy (prop b "username")) || negb (truthy (prop b "firstName"))
  || negb (truthy (prop b "lastName")) || negb (truthy (prop b "email"))
  || negb (truthy (prop b "password")) || negb (truthy (prop b "phone")).

(** [!name || !discription] *)
Definition item_fields_missing (b : JsObject) : bool :=
  negb (truthy (prop b "name")) || negb (truthy (prop b "discription")).

(** [app.get('/api/v1/users', ...)] *)
Definition get_users : H := fun _ _ st =>
  (mkResponse 200 (JUsers (users st)), st).

(** [app.get('/api/v1/users/:id', ...)] *)
Definition get_user : H := fun ps _ st =>
  match find_by_id User.id (parseInt_param (param ps "id")) (users st) with
  | None => (mkResponse 404 (JMessage "User not found"), st)
  | Some (_, user) => (mkResponse 200 (JUser user), st)
  end.

(** [app.post('/api/v1/users', ...)] *)
Definition post_user : H := fun _ b st =>
  if user_fields_missing b
  then (mkResponse 400 (JMessage "All fields are required"), st)
  else
    let newUser :=
      {| User.id := next_id (users st);
         User.username := prop b "username";
         User.firstName := prop b "firstName";
         User.lastName := prop b "lastName";
         User.email := prop b "email";
         User.password := prop b "password";
         User.phone := prop b "phone";
         User.userStatus := js_or (prop b "userStatus") (VNum 1) |} in
    (mkResponse 201 (JUser newUser), set_users st (users st ++ [newUser])).

(** [app.put('/api/v1/users/:id', ...)]: the object found is
    overwritten where it sits in the array. *)
Definition put_user : H := fun ps b st =>
  match find_by_id User.id (parseInt_param (param ps "id")) (users st) with
  | None => (mkResponse 404 (JMessage "User not found"), st)
  | Some (index, user) =>
      if user_fields_missing b
      then (mkResponse 400 (JMessage "All fields are required"), st)
      else
        let user' :=
          {| User.id := User.id user;
             User.username := prop b "username";
             User.firstName := prop b "firstName";
             User.lastName := prop b "lastName";
             User.email := prop b "email";
             User.password := prop b "password";
             User.phone := prop b "phone";
             User.userStatus := js_or (prop b "userStatus") (VNum 1) |} in
        (mkResponse 200 (JUser user'),
         set_users st (<[index := user']> (users st)))
  end.

(** [app.delete('/api/v1/users/:id', ...)]: [splice(index, 1)] *)
Definition delete_user : H := fun ps _ st =>
  match find_by_id User.id (parseInt_param (param ps "id")) (users st) with
  | None => (mkResponse 404 (JMessage "User not found"), st)
  | Some (index, _) =>
      (mkResponse 200 (JMessage "User deleted"),
       set_users st (delete index (users st)))
  end.

(** [app.get('/api/v1/items', ...)] *)
Definition get_items : H := fun _ _ st =>
  (mkResponse 200 (JItems (items st)), st).

(** [app.get('/api/v1/items/:id', ...)] *)
Definition get_item : H := fun ps _ st =>
  match find_by_id Item.id (parseInt_param (param ps "id")) (items st) with
  | None => (mkResponse 404 (JMessage "Item not found"), st)
  | Some (_, item) => (mkResponse 200 (JItem item), st)
  end.

(** [app.post('/api/v1/items', ...)] *)
Definition post_item : H := fun _ b st =>
  if item_fields_missing b
  then (mkResponse 400 (JMessage "All fields is required"), st)
  else
    let newItem :=
      {| Item.id := next_id (items st);
         Item.name := prop b "name";
         Item.discription := prop b "discription" |} in
    (mkResponse 201 (JItem newItem), set_items st (items st ++ [newItem])).

(** [app.put('/api/v1/items/:id', ...)] *)
Definition put_item : H := fun ps b st =>
  match find_by_id Item.id (parseInt_param (param ps "id")) (items st) with
  | None => (mkResponse 404 (JMessage "Item not found"), st)
  | Some (index, item) =>
      if item_fields_missing b
      then (mkResponse 400 (JMessage "All fields is required"), st)
      else
        let item' :=
          {| Item.id := Item.id item;
             Item.name := prop b "name";
             Item.discription := prop b "discription" |} in
        (mkResponse 200 (JItem item'),
         set_items st (<[index := item']> (items st)))
  end.

(** [app.delete('/api/v1/items/:id', ...)] *)
Definition delete_item : H := fun ps _ st =>
  match find_by_id Item.id (parseInt_param (param ps "id")) (items st) with
  | None => (mkResponse 404 (JMessage "Item not found"), st)
  | Some (index, _) =>
      (mkResponse 200 (JMessage "Item deleted"),
       set_items st (delete index (items st)))
  end.

(** The routes in the order the module registers them. *)
Definition app : list (@Route State Response) :=
  [ (GET, "/api/v1/users", get_users);
    (GET, "/api/v1/users/:id", get_user);
    (POST, "/api/v1/users", post_user);
    (PUT, "/api/v1/users/:id", put_user);
    (DELETE, "/api/v1/users/:id", delete_user);
    (GET, "/api/v1/items", get_items);
    (GET, "/api/v1/items/:id", get_item);
    (POST, "/api/v1/items", post_item);
    (PUT, "/api/v1/items/:id", put_item);
    (DELETE, "/api/v1/items/:id", delete_item) ].

Definition serve : Request -> State -> option Response * State := dispatch app.

End Main.

(** ** [index.js]: items with a name only *)

Module Index.

Module Item.
Record t : Type := mk {
  id : Z;
  name : JsVal;
}.
End Item.

(** The module-level array [items]. *)
Definition State : Type := list Item.t.

Definition seed : State :=
  [ {| Item.id := 1; Item.name := VStr "Item 1" |};
    {| Item.id := 2; Item.name := VStr "Item 2" |} ].

Inductive Json : Type :=
  | JItems (its : list Item.t)
  | JItem (i : Item.t)
  | JMessage (message : string).

Record Response : Type := mkResponse {
  status : nat;
  json : Json;
}.

Definition H : Type := @Handler State Response.

(** [app.get('/api/v1/items', ...)] *)
Definition get_items : H := fun _ _ items =>
  (mkResponse 200 (JItems items), items).

(** [app.get('/api/v1/items/get', ...)] *)
Definition get_item : H := fun ps _ items =>
  match find_by_id Item.id (parseInt_param (param ps "id")) items with
  | None => (mkResponse 404 (JMessage "Item not found"), items)
  | Some (_, item) => (mkResponse 200 (JItem item), items)
  end.

(** [app.post('/api/v1/items', ...)] *)
Definition post_item : H := fun _ b items =>
  if negb (truthy (prop b "name"))
  then (mkResponse 400 (JMessage "Name is required"), items)
  else
    let newItem :=
      {| Item.id := next_id items; Item.name := prop b "name" |} in
    (mkResponse 201 (JItem newItem), items ++ [newItem]).

(** [app.put('/api/v1/items/put', ...)] *)
Definition put_item : H := fun ps b items =>
  match find_by_id Item.id (parseInt_param (param ps "id")) items with
  | None => (mkResponse 404 (JMessage "Item not found"), items)
  | Some (index, item) =>
      if negb (truthy (prop b "name"))
      then (mkResponse 400 (JMessage "Name is required"), items)
      else
        let item' :=
          {| Item.id := Item.id item; Item.name := prop b "name" |} in
        (mkResponse 200 (JItem item'), <[index := item']> items)
  end.

(** [app.delete('/api/v1/items/:id', ...)] *)
Definition delete_item : H := fun ps _ items =>
  match find_by_id Item.id (parseInt_param (param ps "id")) items with
  | None => (mkResponse 404 (JMessage "Item not found"), items)
  | Some (index, _) =>
      (mkResponse 200 (JMessage "Item deleted"), delete index items)
  end.

Definition app : list (@Route State Response) :=
  [ (GET, "/api/v1/items", get_items);
    (GET, "/api/v1/items/get", get_item);
    (POST, "/api/v1/items", post_item);
    (PUT, "/api/v1/items/put", put_item);
    (DELETE, "/api/v1/items/:id", delete_item) ].

Definition serve : Request -> State -> option Response * State := dispatch app.

End Index.

(** ** Requests used in the scenarios *)

Definition req_get (p : string) : Request := mkRequest GET (path_of p) [].
Definition req_delete (p : string) : Request := mkRequest DELETE (path_of p) [].
Definition req_post (p : string) (b : JsObject) : Request :=
  mkRequest POST (path_of p) b.
Definition req_put (p : string) (b : JsObject) : Request :=
  mkRequest PUT (path_of p) b.

(** A body that passes the validation of the users handlers. *)
Definition user_body (n : string) : JsObject :=
  [ ("username", VStr n); ("firstName", VStr "A"); ("lastName", VStr "B");
    ("email", VStr "a@b.c"); ("password", VStr "pw"); ("phone", VStr "1") ].

Definition widget : JsObject := [ ("name", VStr "Widget"); ("discription", VStr "x") ].

(** ** Vocabulary of the properties *)

(** The path [/api/v1/users/<seg>] and its items counterpart. *)
Definition users_id_path (seg : CodeUnits) : list CodeUnits :=
  path_of "/api/v1/users" ++ [seg].
Definition items_id_path (seg : CodeUnits) : list CodeUnits :=
  path_of "/api/v1/items" ++ [seg].

(** The fields the schema of each kind lists as required. *)
Definition user_required : list string :=
  ["username"; "firstName"; "lastName"; "email"; "password"; "phone"].
Definition item_required : list string := ["name"; "discription"].

(** Some required field is absent or falsy. *)
Definition lacks (fields : list string) (b : JsObject) : Prop :=
  exists f, f ∈ fields /\ truthy (prop b f) = false.

(** Every required field is present and truthy. *)
Definition provides (fields : list string) (b : JsObject) : Prop :=
  forall f, f ∈ fields -> truthy (prop b f) = true.

(** The entity with a given id and the fields of a body. *)
Definition user_from (n : Z) (b : JsObject) : Main.User.t :=
  {| Main.User.id := n;
     Main.User.username := prop b "username";
     Main.User.firstName := prop b "firstName";
     Main.User.lastName := prop b "lastName";
     Main.User.email := prop b "email";
     Main.User.password := prop b "password";
     Main.User.phone := prop b "phone";
     Main.User.userStatus := js_or (prop b "userStatus") (VNum 1) |}.

Definition item_from (n : Z) (b : JsObject) : Main.Item.t :=
  {| Main.Item.id := n;
     Main.Item.name := prop b "name";
     Main.Item.discription := prop b "discription" |}.

(** What [userStatus || 1] stores for a body. *)
Definition stored_status (b : JsObject) : JsVal :=
  js_or (prop b "userStatus") (VNum 1).

(** A route segment that is literal text. *)
Definition literal (seg : PathSeg) : Prop :=
  match seg with Lit _ => True | Param _ => False end.

(** Stated from the specification's words: the segment is a base-10
    integer, an optional sign followed by digits and nothing else. *)
Definition numeric_segment (s : CodeUnits) : bool :=
  let ds := match s with
            | 45%N :: rest | 43%N :: rest => rest
            | _ => s
            end in
  match ds with
  | [] => false
  | _ => forallb is_digit ds
  end.

(** ** Bodies and request sequences used in the examples *)

(** A body without [email], and one whose [name] is the empty string. *)
Definition no_email : JsObject :=
  [ ("username", VStr "u"); ("firstName", VStr "A"); ("lastName", VStr "B");
    ("password", VStr "pw"); ("phone", VStr "1") ].
Definition empty_name : JsObject := [ ("name", VStr ""); ("discription", VStr "x") ].

(** A valid body that carries [userStatus: 0]. *)
Definition inactive_ann : JsObject := ("userStatus", VNum 0) :: user_body "ann".

(** Renaming item 2 of the seed: item 1, the ids and the users stay. *)
Definition renamed : JsObject := [ ("name", VStr "Gadget"); ("discription", VStr "y") ].

(** Nine valid creates in a row. *)
Definition nine_users : list Request :=
  (fun n => req_post "/api/v1/users" (user_body n))
    <$> ["u2"; "u3"; "u4"; "u5"; "u6"; "u7"; "u8"; "u9"; "u10"].

(** The state after the first eight of the nine creates. *)
Definition eight_users_in : Main.State :=
  snd (run Main.app (take 8 nine_users) Main.seed).

(** The state after the nine creates. *)
Definition nine_users_in : Main.State := snd (run Main.app nine_users Main.seed).

(** ** Vocabulary of the further properties *)

(** How one request may change the list of ids of a collection: not at
    all, by one new id at the end, or by the removal of one position. *)
Definition ids_step (m : Method) (ids ids' : list Z) : Prop :=
  ids' = ids
  \/ (m = POST /\ ids' = ids ++ [Z.of_nat (length ids) + 1])
  \/ (m = DELETE /\ exists i, (i < length ids)%nat /\ ids' = delete i ids).

(** A stored user whose six required fields and status are all truthy,
    and a stored item whose two fields are. *)
Definition valid_user (u : Main.User.t) : bool :=
  truthy (Main.User.username u) && truthy (Main.User.firstName u)
  && truthy (Main.User.lastName u) && truthy (Main.User.email u)
  && truthy (Main.User.password u) && truthy (Main.User.phone u)
  && truthy (Main.User.userStatus u).

Definition valid_item (it : Main.Item.t) : bool :=
  truthy (Main.Item.name it) && truthy (Main.Item.discription it).

(** The item of [index.js] with a given id and the name of a body. *)
Definition index_item_from (n : Z) (b : JsObject) : Index.Item.t :=
  {| Index.Item.id := n; Index.Item.name := prop b "name" |}.

(** The sign [parseInt] reads off the trimmed input, and what follows it. *)
Definition sign_and_rest (trimmed : CodeUnits) : Z * CodeUnits :=
  match trimmed with
  | 45%N :: rest => (-1, rest)
  | 43%N :: rest => (1, rest)
  | _ => (1, trimmed)
  end.

(** Every stored entity of [main.js] is valid. *)
Definition all_valid (st : Main.State) : Prop :=
  Forall (fun u => valid_user u = true) (Main.users st)
  /\ Forall (fun it => valid_item it = true) (Main.items st).

(** A body with a name and nothing else. *)
Definition name_only : JsObject := [ ("name", VStr "Widget") ].

(** * Properties *)

(** ** Examples of [parseInt] *)

Example parseInt_10 : parseInt (units "10") = Some 10.
Proof. reflexivity. Qed.
Example parseInt_prefix : parseInt (units " -12px") = Some (-12).
Proof. reflexivity. Qed.
Example parseInt_abc : parseInt (units "abc") = None.
Proof. reflexivity. Qed.
Example parseInt_undefined : parseInt_param None = None.
Proof. reflexivity. Qed.
Example decimal_segment_120 : decimal_segment 120 = units "120".
Proof. reflexivity. Qed.

(** ** [parseInt] and decimal numerals *)

Lemma is_digit_spec c : is_digit c = true <-> (48 <= c <= 57)%N.
Proof. unfold is_digit. rewrite andb_true_iff, !N.leb_le. tauto. Qed.

Lemma digit_cases c :
  is_digit c = true -> In c [48; 49; 50; 51; 52; 53; 54; 55; 56; 57]%N.
Proof. intros Hc%is_digit_spec. simpl. lia. Qed.

Lemma digit_prefix_all ds : Forall (fun c => is_digit c = true) ds -> digit_prefix ds = ds.
Proof. induction 1 as [| c ds Hc _ IH]; simpl; [| rewrite Hc, IH]; reflexivity. Qed.

Lemma mathInt_from_cons a c ds :
  mathInt_from a (c :: ds) = mathInt_from (10 * a + (Z.of_N c - 48)) ds.
Proof. reflexivity. Qed.

(** A non-empty string of digits parses as the integer it denotes. *)
Lemma parseInt_digits ds :
  ds <> [] -> Forall (fun c => is_digit c = true) ds -> parseInt ds = Some (mathInt ds).
Proof.
  intros Hne Hall. destruct ds as [| c ds]; [contradiction |].
  apply Forall_cons_1 in Hall as [Hc Hall].
  apply digit_cases in Hc. simpl in Hc.
  repeat (destruct Hc as [<- | Hc];
          [unfold parseInt; simpl; rewrite (digit_prefix_all _ Hall);
           f_equal; unfold mathInt; lia |]).
  contradiction.
Qed.

Lemma parseInt_minus_digits ds :
  ds <> [] -> Forall (fun c => is_digit c = true) ds ->
  parseInt (45%N :: ds) = Some (- mathInt ds).
Proof.
  intros Hne Hall. unfold parseInt. simpl.
  rewrite (digit_prefix_all _ Hall).
  destruct ds; [contradiction |]. f_equal; try lia.
Qed.

Lemma digits_of_all fuel : forall n acc,
  Forall (fun c => is_digit c = true) acc ->
  Forall (fun c => is_digit c = true) (digits_of fuel n acc).
Proof.
  induction fuel as [| fuel IH]; intros n acc Hacc; simpl; [assumption |].
  assert (Hd : Forall (fun c => is_digit c = true) ((48 + n mod 10)%N :: acc)).
  { constructor; [| assumption]. apply is_digit_spec.
    pose proof (N.mod_upper_bound n 10 ltac:(discriminate)) as Hmod.
    revert Hmod. generalize (n mod 10)%N. intros; lia. }
  destruct (n / 10 =? 0)%N; auto.
Qed.

Lemma digits_of_nonempty fuel : forall n acc, acc <> [] -> digits_of fuel n acc <> [].
Proof.
  induction fuel as [| fuel IH]; intros n acc Hacc; simpl; [assumption |].
  destruct (n / 10 =? 0)%N; [discriminate |]. apply IH. discriminate.
Qed.

(** With enough fuel the digits produced denote the number. *)
Lemma mathInt_digits_of fuel : forall n acc,
  (n < 2 ^ N.of_nat fuel)%N ->
  mathInt_from 0 (digits_of fuel n acc) = mathInt_from (Z.of_N n) acc.
Proof.
  induction fuel as [| fuel IH]; intros n acc Hn.
  - simpl in *. replace n with 0%N by lia. reflexivity.
  - cbn [digits_of].
    assert (Hdm : (n = 10 * (n / 10) + n mod 10)%N) by (apply N.div_mod; discriminate).
    pose proof (N.mod_upper_bound n 10 ltac:(discriminate)) as Hmod.
    rewrite Nat2N.inj_succ, N.pow_succ_r' in Hn.
    revert Hdm Hmod. generalize (n mod 10)%N as r, (n / 10)%N as q.
    intros r q Hdm Hmod.
    destruct (N.eqb_spec q 0) as [Hz | Hnz].
    + rewrite mathInt_from_cons. f_equal. lia.
    + rewrite IH, mathInt_from_cons by lia. f_equal. lia.
Qed.

Lemma numeral_spec n :
  numeral n <> [] /\ Forall (fun c => is_digit c = true) (numeral n)
  /\ mathInt (numeral n) = Z.of_N n.
Proof.
  unfold numeral. split; [| split].
  - cbn [digits_of]. destruct (n / 10 =? 0)%N; [discriminate |].
    apply digits_of_nonempty. discriminate.
  - apply digits_of_all. constructor.
  - unfold mathInt. rewrite mathInt_digits_of; [reflexivity |].
    rewrite Nat2N.inj_succ, N2Nat.id, N.pow_succ_r'.
    pose proof (N.size_gt n). lia.
Qed.

(** Reading back the numeral of an integer gives the integer. *)
Lemma parseInt_decimal_segment z : parseInt (decimal_segment z) = Some z.
Proof.
  destruct z as [| p | p]; simpl decimal_segment.
  - reflexivity.
  - destruct (numeral_spec (Npos p)) as (Hne & Hall & Hval).
    rewrite parseInt_digits, Hval by assumption. reflexivity.
  - destruct (numeral_spec (Npos p)) as (Hne & Hall & Hval).
    rewrite parseInt_minus_digits, Hval by assumption. reflexivity.
Qed.

(** No code unit of the segment is a digit: [parseInt] gives [NaN]. *)
Lemma parseInt_no_digit s :
  Forall (fun c => is_digit c = false) s -> parseInt s = None.
Proof.
  intros Hs.
  assert (Htrim : Forall (fun c => is_digit c = false) (trim_start s)).
  { induction Hs as [| c s Hc Hs IH]; simpl; [constructor |].
    destruct (is_white_space c); [assumption | by constructor]. }
  unfold parseInt. destruct Htrim as [| c t Hc Ht]; [reflexivity |].
  assert (Hrest : forall r, Forall (fun c => is_digit c = false) r -> digit_prefix r = []).
  { intros r [| c' r' Hc' _]; simpl; [| rewrite Hc']; reflexivity. }
  assert (Hct : digit_prefix (c :: t) = []) by (apply Hrest; by constructor).
  destruct c as [| p]; [by rewrite Hct |].
  do 6 (destruct p as [p | p |]; try by rewrite Hct); by rewrite (Hrest t Ht).
Qed.

(** ** Lookup, overwrite and removal in a store *)

Section StoreFacts.
Context {A : Type} (ident : A -> Z).
Implicit Types (store : list A) (k : option Z).

(** [NaN] is the id of no entity. *)
Lemma find_by_id_NaN store : find_by_id ident None store = None.
Proof.
  apply list_find_None, Forall_forall. intros e _. unfold strict_eq. discriminate.
Qed.

Lemma find_by_id_Some k store i e :
  find_by_id ident k store = Some (i, e) ->
  store !! i = Some e /\ k = Some (ident e)
  /\ forall j e', store !! j = Some e' -> (j < i)%nat -> k <> Some (ident e').
Proof. unfold find_by_id. rewrite list_find_Some. unfold strict_eq. tauto. Qed.

Lemma find_by_id_None k store :
  find_by_id ident k store = None <-> forall e, e ∈ store -> k <> Some (ident e).
Proof. unfold find_by_id. rewrite list_find_None, Forall_forall. reflexivity. Qed.

Lemma find_by_id_present n store :
  n ∈ ident <$> store -> is_Some (find_by_id ident (Some n) store).
Proof.
  intros (e & -> & He)%list_elem_of_fmap.
  apply (list_find_elem_of _ _ e); [assumption | reflexivity].
Qed.

(** Overwriting the entity found, keeping its id, leaves it the one found. *)
Lemma find_by_id_overwrite k store i e e' :
  find_by_id ident k store = Some (i, e) -> ident e' = ident e ->
  find_by_id ident k (<[i := e']> store) = Some (i, e').
Proof.
  intros (Hi & Hk & Hfirst)%find_by_id_Some Hid.
  apply list_find_Some. split; [| split].
  - apply list_lookup_insert_eq. by eapply lookup_lt_Some.
  - unfold strict_eq. congruence.
  - intros j e'' Hj Hlt. rewrite list_lookup_insert_ne in Hj by lia.
    unfold strict_eq. eauto.
Qed.

(** The new last entity is the one found when its id was free. *)
Lemma find_by_id_snoc_fresh store e :
  ident e ∉ ident <$> store ->
  find_by_id ident (Some (ident e)) (store ++ [e]) = Some (length store, e).
Proof.
  intros Hfresh. apply list_find_Some. split; [| split].
  - by apply list_lookup_middle.
  - reflexivity.
  - intros j e' Hj Hlt Heq. rewrite lookup_app_l in Hj by assumption.
    apply Hfresh. unfold strict_eq in Heq. injection Heq as ->.
    apply list_elem_of_fmap_2, list_elem_of_lookup. eauto.
Qed.

(** The first entity that already carries the id stays the one found. *)
Lemma find_by_id_snoc_taken k store i e e' :
  find_by_id ident k store = Some (i, e) ->
  find_by_id ident k (store ++ [e']) = Some (i, e).
Proof. apply list_find_app_l. Qed.

(** With pairwise distinct ids, removing the entity found leaves none
    with that id. *)
Lemma find_by_id_delete_unique k store i e :
  NoDup (ident <$> store) ->
  find_by_id ident k store = Some (i, e) ->
  find_by_id ident k (delete i store) = None.
Proof.
  intros Hnd (Hi & Hk & _)%find_by_id_Some.
  apply list_find_None, Forall_lookup. intros j e' Hj Heq.
  unfold strict_eq in Heq.
  assert (Hsame : ident e' = ident e) by congruence.
  assert (Hpos : exists j', j' <> i /\ store !! j' = Some e').
  { destruct (decide (j < i)%nat).
    - exists j. rewrite list_lookup_delete_lt in Hj by assumption. split; [lia | done].
    - exists (S j). rewrite list_lookup_delete_ge in Hj by lia. split; [lia | done]. }
  destruct Hpos as (j' & Hne & Hj').
  apply Hne. eapply (NoDup_lookup _ _ _ _ Hnd).
  - by rewrite list_lookup_fmap, Hj'.
  - rewrite list_lookup_fmap, Hi. simpl. congruence.
Qed.

Lemma dense_NoDup store : dense ident store -> NoDup (ident <$> store).
Proof.
  intros Hd. apply NoDup_alt. intros i j n Hi Hj.
  rewrite list_lookup_fmap in Hi, Hj.
  destruct (store !! i) as [ei |] eqn:Hei; [| discriminate].
  destruct (store !! j) as [ej |] eqn:Hej; [| discriminate].
  apply Hd in Hei, Hej. simpl in Hi, Hj.
  injection Hi as Hi. injection Hj as Hj. lia.
Qed.

Lemma dense_push store e :
  dense ident store -> ident e = next_id store -> dense ident (store ++ [e]).
Proof.
  intros Hd He i e' [Hi | [Hlen Hi]]%lookup_app_Some; [by apply Hd |].
  apply list_lookup_singleton_Some in Hi as [Hi <-].
  rewrite He. unfold next_id. lia.
Qed.

Lemma dense_overwrite store i e e' :
  dense ident store -> store !! i = Some e -> ident e' = ident e ->
  dense ident (<[i := e']> store).
Proof.
  intros Hd Hi Hid j e'' [(<- & <- & _) | [Hne Hj]]%list_lookup_insert_Some.
  - rewrite Hid. by apply Hd.
  - by apply Hd.
Qed.

Lemma dense_fresh store : dense ident store -> next_id store ∉ ident <$> store.
Proof.
  intros Hd (e & Heq & (i & Hi)%list_elem_of_lookup)%list_elem_of_fmap.
  pose proof (lookup_lt_Some _ _ _ Hi). apply Hd in Hi.
  unfold next_id in Heq. lia.
Qed.
End StoreFacts.

(** ** Which handler a request reaches *)

(** Matching only looks at the patterns, so the handlers are kept
    abstract while the table is searched. *)
Ltac abstract_handlers :=
  unfold Main.serve, Main.app;
  generalize Main.get_users; generalize Main.get_user;
  generalize Main.post_user; generalize Main.put_user;
  generalize Main.delete_user; generalize Main.get_items;
  generalize Main.get_item; generalize Main.post_item;
  generalize Main.put_item; generalize Main.delete_item;
  intros.

Ltac route seg :=
  let c := fresh "c" in
  let s := fresh "s" in
  intros; destruct seg as [| c s]; [contradiction |];
  abstract_handlers; vm_compute; reflexivity.

Lemma serve_get_user seg b st : seg <> [] ->
  Main.serve (mkRequest GET (users_id_path seg) b) st
  = let '(r, st') := Main.get_user [("id", seg)] b st in (Some r, st').
Proof. route seg. Qed.

Lemma serve_put_user seg b st : seg <> [] ->
  Main.serve (mkRequest PUT (users_id_path seg) b) st
  = let '(r, st') := Main.put_user [("id", seg)] b st in (Some r, st').
Proof. route seg. Qed.

Lemma serve_delete_user seg b st : seg <> [] ->
  Main.serve (mkRequest DELETE (users_id_path seg) b) st
  = let '(r, st') := Main.delete_user [("id", seg)] b st in (Some r, st').
Proof. route seg. Qed.

Lemma serve_get_item seg b st : seg <> [] ->
  Main.serve (mkRequest GET (items_id_path seg) b) st
  = let '(r, st') := Main.get_item [("id", seg)] b st in (Some r, st').
Proof. route seg. Qed.

Lemma serve_put_item seg b st : seg <> [] ->
  Main.serve (mkRequest PUT (items_id_path seg) b) st
  = let '(r, st') := Main.put_item [("id", seg)] b st in (Some r, st').
Proof. route seg. Qed.

Lemma serve_delete_item seg b st : seg <> [] ->
  Main.serve (mkRequest DELETE (items_id_path seg) b) st
  = let '(r, st') := Main.delete_item [("id", seg)] b st in (Some r, st').
Proof. route seg. Qed.

Lemma serve_post_users b st :
  Main.serve (req_post "/api/v1/users" b) st
  = let '(r, st') := Main.post_user [] b st in (Some r, st').
Proof. abstract_handlers. vm_compute. reflexivity. Qed.

Lemma serve_post_items b st :
  Main.serve (req_post "/api/v1/items" b) st
  = let '(r, st') := Main.post_item [] b st in (Some r, st').
Proof. abstract_handlers. vm_compute. reflexivity. Qed.

(** ** Required fields *)

Lemma provides_not_lacks fields b : provides fields b <-> ~ lacks fields b.
Proof.
  split.
  - intros Hp (f & Hf & Hfalse). rewrite (Hp f Hf) in Hfalse. discriminate.
  - intros Hl f Hf. destruct (truthy (prop b f)) eqn:Ht; [reflexivity |].
    exfalso. apply Hl. by exists f.
Qed.

Lemma user_fields_missing_lacks b :
  Main.user_fields_missing b = true <-> lacks user_required b.
Proof.
  unfold Main.user_fields_missing, lacks, user_required.
  rewrite !orb_true_iff, !negb_true_iff. split.
  - intros [[[[[H | H] | H] | H] | H] | H]; eexists; (split; [| exact H]); set_solver.
  - intros (f & Hf & H).
    repeat (apply elem_of_cons in Hf as [-> | Hf]; [tauto |]).
    by apply elem_of_nil in Hf.
Qed.

Lemma item_fields_missing_lacks b :
  Main.item_fields_missing b = true <-> lacks item_required b.
Proof.
  unfold Main.item_fields_missing, lacks, item_required.
  rewrite !orb_true_iff, !negb_true_iff. split.
  - intros [H | H]; eexists; (split; [| exact H]); set_solver.
  - intros (f & Hf & H).
    repeat (apply elem_of_cons in Hf as [-> | Hf]; [tauto |]).
    by apply elem_of_nil in Hf.
Qed.

Lemma user_fields_missing_provides b :
  Main.user_fields_missing b = false <-> provides user_required b.
Proof.
  rewrite provides_not_lacks, <- user_fields_missing_lacks.
  destruct (Main.user_fields_missing b); split; congruence.
Qed.

Lemma item_fields_missing_provides b :
  Main.item_fields_missing b = false <-> provides item_required b.
Proof.
  rewrite provides_not_lacks, <- item_fields_missing_lacks.
  destruct (Main.item_fields_missing b); split; congruence.
Qed.

(** ** Validation *)

(** C5. A POST, or a PUT whose target exists, in which some required
    field is absent or falsy is answered 400 with a message object, and
    neither collection changes. *)
Theorem invalid_body_rejected_store_unchanged (b : JsObject) (st : Main.State) :
  (lacks user_required b ->
   Main.serve (req_post "/api/v1/users" b) st
   = (Some (Main.mkResponse 400 (Main.JMessage "All fields are required")), st))
  /\ (lacks item_required b ->
      Main.serve (req_post "/api/v1/items" b) st
      = (Some (Main.mkResponse 400 (Main.JMessage "All fields is required")), st))
  /\ (forall seg, seg <> [] -> lacks user_required b ->
      is_Some (find_by_id Main.User.id (parseInt seg) (Main.users st)) ->
      Main.serve (mkRequest PUT (users_id_path seg) b) st
      = (Some (Main.mkResponse 400 (Main.JMessage "All fields are required")), st))
  /\ (forall seg, seg <> [] -> lacks item_required b ->
      is_Some (find_by_id Main.Item.id (parseInt seg) (Main.items st)) ->
      Main.serve (mkRequest PUT (items_id_path seg) b) st
      = (Some (Main.mkResponse 400 (Main.JMessage "All fields is required")), st)).
Proof.
  repeat split.
  - intros Hl%user_fields_missing_lacks.
    rewrite serve_post_users. unfold Main.post_user. by rewrite Hl.
  - intros Hl%item_fields_missing_lacks.
    rewrite serve_post_items. unfold Main.post_item. by rewrite Hl.
  - intros seg Hseg Hl%user_fields_missing_lacks [[i u] Hfind].
    rewrite serve_put_user by assumption. unfold Main.put_user. simpl param.
    unfold parseInt_param, param_string. by rewrite Hfind, Hl.
  - intros seg Hseg Hl%item_fields_missing_lacks [[i it] Hfind].
    rewrite serve_put_item by assumption. unfold Main.put_item. simpl param.
    unfold parseInt_param, param_string. by rewrite Hfind, Hl.
Qed.

Lemma no_email_lacks : lacks user_required no_email.
Proof. exists "email". split; [set_solver | reflexivity]. Qed.

Lemma empty_name_lacks : lacks item_required empty_name.
Proof. exists "name". split; [set_solver | reflexivity]. Qed.

Lemma invalid_body_rejected_witness :
  Main.serve (req_post "/api/v1/users" no_email) Main.seed
  = (Some (Main.mkResponse 400 (Main.JMessage "All fields are required")), Main.seed)
  /\ Main.serve (req_post "/api/v1/items" empty_name) Main.seed
     = (Some (Main.mkResponse 400 (Main.JMessage "All fields is required")), Main.seed)
  /\ Main.serve (mkRequest PUT (users_id_path (units "10")) no_email) Main.seed
     = (Some (Main.mkResponse 400 (Main.JMessage "All fields are required")), Main.seed)
  /\ Main.serve (mkRequest PUT (items_id_path (units "2")) empty_name) Main.seed
     = (Some (Main.mkResponse 400 (Main.JMessage "All fields is required")), Main.seed).
Proof.
  split; [| split; [| split]].
  - apply (invalid_body_rejected_store_unchanged no_email Main.seed), no_email_lacks.
  - apply (invalid_body_rejected_store_unchanged empty_name Main.seed), empty_name_lacks.
  - apply (invalid_body_rejected_store_unchanged no_email Main.seed);
      [discriminate | apply no_email_lacks | vm_compute; eauto].
  - apply (invalid_body_rejected_store_unchanged empty_name Main.seed);
      [discriminate | apply empty_name_lacks | vm_compute; eauto].
Defined.

(** ** Create *)

(** What a valid POST does to each collection. *)
Lemma serve_post_user_ok b st :
  provides user_required b ->
  Main.serve (req_post "/api/v1/users" b) st
  = (Some (Main.mkResponse 201 (Main.JUser (user_from (next_id (Main.users st)) b))),
     Main.set_users st (Main.users st ++ [user_from (next_id (Main.users st)) b])).
Proof.
  intros Hok%user_fields_missing_provides.
  rewrite serve_post_users. unfold Main.post_user. by rewrite Hok.
Qed.

Lemma serve_post_item_ok b st :
  provides item_required b ->
  Main.serve (req_post "/api/v1/items" b) st
  = (Some (Main.mkResponse 201 (Main.JItem (item_from (next_id (Main.items st)) b))),
     Main.set_items st (Main.items st ++ [item_from (next_id (Main.items st)) b])).
Proof.
  intros Hok%item_fields_missing_provides.
  rewrite serve_post_items. unfold Main.post_item. by rewrite Hok.
Qed.

(** C6. A valid create on a collection of size n answers 201 with the
    new entity, whose id is n + 1; the collection after the request is
    the one before with that entity appended at the end, and the other
    collection is as it was. On the seed, posting the widget answers 201
    with id 3 and leaves the two seeded items followed by the widget. *)
Theorem create_assigns_size_plus_one (b : JsObject) (st : Main.State) :
  (provides item_required b ->
   let newItem :=
     {| Main.Item.id := Z.of_nat (length (Main.items st)) + 1;
        Main.Item.name := prop b "name";
        Main.Item.discription := prop b "discription" |} in
   let result := Main.serve (req_post "/api/v1/items" b) st in
   fst result = Some (Main.mkResponse 201 (Main.JItem newItem))
   /\ Main.items (snd result) = Main.items st ++ [newItem]
   /\ Main.users (snd result) = Main.users st)
  /\ (provides user_required b ->
      let newUser :=
        {| Main.User.id := Z.of_nat (length (Main.users st)) + 1;
           Main.User.username := prop b "username";
           Main.User.firstName := prop b "firstName";
           Main.User.lastName := prop b "lastName";
           Main.User.email := prop b "email";
           Main.User.password := prop b "password";
           Main.User.phone := prop b "phone";
           Main.User.userStatus := js_or (prop b "userStatus") (VNum 1) |} in
      let result := Main.serve (req_post "/api/v1/users" b) st in
      fst result = Some (Main.mkResponse 201 (Main.JUser newUser))
      /\ Main.users (snd result) = Main.users st ++ [newUser]
      /\ Main.items (snd result) = Main.items st)
  /\ (let result := Main.serve (req_post "/api/v1/items" widget) Main.seed in
      fst result
      = Some (Main.mkResponse 201
                (Main.JItem {| Main.Item.id := 3; Main.Item.name := VStr "Widget";
                               Main.Item.discription := VStr "x" |}))
      /\ Main.items (snd result)
         = [ {| Main.Item.id := 1; Main.Item.name := VStr "Item 1";
                Main.Item.discription := VStr "product info" |};
             {| Main.Item.id := 2; Main.Item.name := VStr "Item 2";
                Main.Item.discription := VStr "product info" |};
             {| Main.Item.id := 3; Main.Item.name := VStr "Widget";
                Main.Item.discription := VStr "x" |} ]
      /\ Main.users (snd result) = Main.users Main.seed).
Proof.
  split; [| split].
  - intros Hok newItem result. subst result.
    rewrite (serve_post_item_ok b st Hok). by split_and!.
  - intros Hok newUser result. subst result.
    rewrite (serve_post_user_ok b st Hok). by split_and!.
  - by split_and!.
Qed.

Lemma widget_provides : provides item_required widget.
Proof. apply item_fields_missing_provides. reflexivity. Qed.

Lemma user_body_provides n : n <> "" -> provides user_required (user_body n).
Proof.
  intros Hn. apply user_fields_missing_provides.
  unfold Main.user_fields_missing. simpl.
  destruct (String.eqb_spec n ""); [contradiction | reflexivity].
Qed.

Lemma create_assigns_size_plus_one_witness :
  (let result := Main.serve (req_post "/api/v1/items" widget) Main.seed in
   fst result
   = Some (Main.mkResponse 201
             (Main.JItem {| Main.Item.id := 3; Main.Item.name := VStr "Widget";
                            Main.Item.discription := VStr "x" |}))
   /\ Main.items (snd result)
      = Main.items Main.seed
        ++ [ {| Main.Item.id := 3; Main.Item.name := VStr "Widget";
                Main.Item.discription := VStr "x" |} ]
   /\ Main.users (snd result) = Main.users Main.seed)
  /\ (let result := Main.serve (req_post "/api/v1/users" (user_body "ann")) Main.seed in
      fst result
      = Some (Main.mkResponse 201 (Main.JUser (user_from 2 (user_body "ann"))))
      /\ Main.users (snd result)
         = Main.users Main.seed ++ [user_from 2 (user_body "ann")]
      /\ Main.items (snd result) = Main.items Main.seed).
Proof.
  split.
  - exact (proj1 (create_assigns_size_plus_one widget Main.seed) widget_provides).
  - exact (proj1 (proj2 (create_assigns_size_plus_one (user_body "ann") Main.seed))
             (user_body_provides "ann" ltac:(discriminate))).
Defined.

(** ** The default user status *)

Lemma stored_status_spec b :
  (truthy (prop b "userStatus") = false -> stored_status b = VNum 1)
  /\ (truthy (prop b "userStatus") = true -> stored_status b = prop b "userStatus").
Proof. unfold stored_status, js_or. split; intros ->; reflexivity. Qed.

Example status_zero_becomes_one : stored_status [("userStatus", VNum 0)] = VNum 1.
Proof. reflexivity. Qed.

(** C8. After a successful create the user appended, and after a
    successful update the user at the position found, has [userStatus]
    1 when the body's [userStatus] is absent or falsy (0 included), and
    the body's value when that is truthy. *)
Theorem userStatus_defaults_to_one (b : JsObject) (st : Main.State) :
  provides user_required b ->
  (exists u,
     last (Main.users (snd (Main.serve (req_post "/api/v1/users" b) st))) = Some u
     /\ fst (Main.serve (req_post "/api/v1/users" b) st)
        = Some (Main.mkResponse 201 (Main.JUser u))
     /\ (truthy (prop b "userStatus") = false -> Main.User.userStatus u = VNum 1)
     /\ (truthy (prop b "userStatus") = true ->
         Main.User.userStatus u = prop b "userStatus"))
  /\ (forall seg i u0, seg <> [] ->
      find_by_id Main.User.id (parseInt seg) (Main.users st) = Some (i, u0) ->
      exists u,
        Main.users (snd (Main.serve (mkRequest PUT (users_id_path seg) b) st)) !! i
        = Some u
        /\ fst (Main.serve (mkRequest PUT (users_id_path seg) b) st)
           = Some (Main.mkResponse 200 (Main.JUser u))
        /\ (truthy (prop b "userStatus") = false -> Main.User.userStatus u = VNum 1)
        /\ (truthy (prop b "userStatus") = true ->
            Main.User.userStatus u = prop b "userStatus")).
Proof.
  intros Hok. pose proof (stored_status_spec b) as [Hfalsy Htruthy].
  split.
  - rewrite (serve_post_user_ok b st Hok).
    eexists. split; [apply last_snoc |]. split; [reflexivity |]. split; assumption.
  - intros seg i u0 Hseg Hfind.
    apply user_fields_missing_provides in Hok.
    rewrite serve_put_user by assumption. unfold Main.put_user. simpl param.
    unfold parseInt_param, param_string. rewrite Hfind, Hok. simpl.
    apply find_by_id_Some in Hfind as (Hi & _).
    eexists. split; [apply list_lookup_insert_eq; by eapply lookup_lt_Some |].
    split; [reflexivity |]. split; assumption.
Qed.

Lemma userStatus_defaults_to_one_witness :
  provides user_required inactive_ann
  /\ exists u,
       last (Main.users (snd (Main.serve (req_post "/api/v1/users" inactive_ann)
                                 Main.seed))) = Some u
       /\ Main.User.userStatus u = VNum 1.
Proof.
  assert (Hok : provides user_required inactive_ann).
  { apply user_fields_missing_provides. reflexivity. }
  split; [exact Hok |].
  destruct (userStatus_defaults_to_one inactive_ann Main.seed Hok)
    as [(u & Hlast & _ & Hfalsy & _) _].
  exists u. split; [exact Hlast | apply Hfalsy; reflexivity].
Defined.

(** ** Update *)

(** What a successful PUT does to each collection. *)
Lemma put_user_ok seg b st i u :
  find_by_id Main.User.id (parseInt seg) (Main.users st) = Some (i, u) ->
  provides user_required b ->
  Main.put_user [("id", seg)] b st
  = (Main.mkResponse 200 (Main.JUser (user_from (Main.User.id u) b)),
     Main.set_users st (<[i := user_from (Main.User.id u) b]> (Main.users st))).
Proof.
  intros Hfind Hok%user_fields_missing_provides.
  unfold Main.put_user. simpl param. unfold parseInt_param, param_string.
  by rewrite Hfind, Hok.
Qed.

Lemma put_item_ok seg b st i it :
  find_by_id Main.Item.id (parseInt seg) (Main.items st) = Some (i, it) ->
  provides item_required b ->
  Main.put_item [("id", seg)] b st
  = (Main.mkResponse 200 (Main.JItem (item_from (Main.Item.id it) b)),
     Main.set_items st (<[i := item_from (Main.Item.id it) b]> (Main.items st))).
Proof.
  intros Hfind Hok%item_fields_missing_provides.
  unfold Main.put_item. simpl param. unfold parseInt_param, param_string.
  by rewrite Hfind, Hok.
Qed.



(** C3. For an existing id and a valid body, the first PUT answers 200
    with the updated entity and leaves some state; the same PUT on that
    state answers the same and leaves that state as it is. *)
Theorem put_twice_same_as_once (seg : CodeUnits) (b : JsObject) (st : Main.State) :
  seg <> [] ->
  (is_Some (find_by_id Main.User.id (parseInt seg) (Main.users st)) ->
   provides user_required b ->
   exists u st1,
     Main.serve (mkRequest PUT (users_id_path seg) b) st
     = (Some (Main.mkResponse 200 (Main.JUser u)), st1)
     /\ Main.serve (mkRequest PUT (users_id_path seg) b) st1
        = (Some (Main.mkResponse 200 (Main.JUser u)), st1))
  /\ (is_Some (find_by_id Main.Item.id (parseInt seg) (Main.items st)) ->
      provides item_required b ->
      exists it st1,
        Main.serve (mkRequest PUT (items_id_path seg) b) st
        = (Some (Main.mkResponse 200 (Main.JItem it)), st1)
        /\ Main.serve (mkRequest PUT (items_id_path seg) b) st1
           = (Some (Main.mkResponse 200 (Main.JItem it)), st1)).
Proof.
  intros Hseg. split.
  - intros [[i u] Hfind] Hok.
    pose proof (find_by_id_overwrite _ _ _ _ _ (user_from (Main.User.id u) b)
                  Hfind eq_refl) as Hagain.
    exists (user_from (Main.User.id u) b),
      (Main.set_users st (<[i := user_from (Main.User.id u) b]> (Main.users st))).
    rewrite !serve_put_user by assumption.
    rewrite (put_user_ok _ _ _ _ _ Hfind Hok).
    rewrite (put_user_ok seg b (Main.set_users st _) i _ Hagain Hok).
    simpl. unfold Main.set_users. simpl. by rewrite list_insert_insert_eq.
  - intros [[i it] Hfind] Hok.
    pose proof (find_by_id_overwrite _ _ _ _ _ (item_from (Main.Item.id it) b)
                  Hfind eq_refl) as Hagain.
    exists (item_from (Main.Item.id it) b),
      (Main.set_items st (<[i := item_from (Main.Item.id it) b]> (Main.items st))).
    rewrite !serve_put_item by assumption.
    rewrite (put_item_ok _ _ _ _ _ Hfind Hok).
    rewrite (put_item_ok seg b (Main.set_items st _) i _ Hagain Hok).
    simpl. unfold Main.set_items. simpl. by rewrite list_insert_insert_eq.
Qed.

Lemma put_twice_same_as_once_witness :
  exists u st1,
    Main.serve (mkRequest PUT (users_id_path (units "10")) (user_body "ann")) Main.seed
    = (Some (Main.mkResponse 200 (Main.JUser u)), st1)
    /\ Main.serve (mkRequest PUT (users_id_path (units "10")) (user_body "ann")) st1
       = (Some (Main.mkResponse 200 (Main.JUser u)), st1).
Proof.
  apply (put_twice_same_as_once (units "10") (user_body "ann") Main.seed).
  - discriminate.
  - vm_compute. eauto.
  - apply user_fields_missing_provides. reflexivity.
Defined.



(** ** Path segments that are not numbers *)

Lemma forallb_digits ds :
  forallb is_digit ds = true -> Forall (fun c => is_digit c = true) ds.
Proof. intros H. apply Forall_forall. intros c Hc. apply list_elem_of_In in Hc.
  by apply (proj1 (forallb_forall _ _) H). Qed.

Lemma parseInt_plus_digits ds :
  ds <> [] -> Forall (fun c => is_digit c = true) ds ->
  parseInt (43%N :: ds) = Some (mathInt ds).
Proof.
  intros Hne Hall. unfold parseInt. simpl.
  rewrite (digit_prefix_all _ Hall).
  destruct ds; [contradiction |]. f_equal; lia.
Qed.

(** Every numeric segment parses, so a segment on which [parseInt]
    gives [NaN] is not numeric. *)
Lemma numeric_segment_parses s : numeric_segment s = true -> is_Some (parseInt s).
Proof.
  unfold numeric_segment. intros H.
  assert (Hplain : forall ds, ds <> [] -> forallb is_digit ds = true ->
                              is_Some (parseInt ds)).
  { intros ds Hne Hds%forallb_digits. rewrite parseInt_digits; eauto. }
  destruct s as [| c rest]; [discriminate |].
  destruct (decide (c = 45%N)) as [-> | Hm].
  { destruct rest as [| d ds]; [discriminate |].
    apply forallb_digits in H. rewrite parseInt_minus_digits; eauto. }
  destruct (decide (c = 43%N)) as [-> | Hp].
  { destruct rest as [| d ds]; [discriminate |].
    apply forallb_digits in H. rewrite parseInt_plus_digits; eauto. }
  apply Hplain; [discriminate |].
  destruct c as [| p]; [exact H |].
  do 6 (destruct p as [p | p |]; try exact H); congruence.
Qed.

Lemma parseInt_NaN_not_numeric s : parseInt s = None -> numeric_segment s = false.
Proof.
  intros Hnan. destruct (numeric_segment s) eqn:Hnum; [| reflexivity].
  apply numeric_segment_parses in Hnum as [z Hz]. congruence.
Qed.

(** C7, as stated, fails: [10abc] is not a number, yet [parseInt] reads
    its leading [10]; the GET answers 200 with user 10 and the DELETE
    removes that user. *)
Lemma non_numeric_segment_can_match :
  numeric_segment (units "10abc") = false
  /\ (exists u, fst (Main.serve (req_get "/api/v1/users/10abc") Main.seed)
                = Some (Main.mkResponse 200 (Main.JUser u)))
  /\ fst (Main.serve (req_get "/api/v1/users/10abc") Main.seed)
     <> Some (Main.mkResponse 404 (Main.JMessage "User not found"))
  /\ snd (Main.serve (req_delete "/api/v1/users/10abc") Main.seed) <> Main.seed.
Proof.
  split; [reflexivity |]. split; [eexists; reflexivity |].
  split; vm_compute; discriminate.
Qed.

Lemma not_found_user st seg :
  parseInt seg = None ->
  find_by_id Main.User.id (parseInt_param (Some seg)) (Main.users st) = None.
Proof. unfold parseInt_param. simpl. intros ->. apply find_by_id_NaN. Qed.

Lemma not_found_item st seg :
  parseInt seg = None ->
  find_by_id Main.Item.id (parseInt_param (Some seg)) (Main.items st) = None.
Proof. unfold parseInt_param. simpl. intros ->. apply find_by_id_NaN. Qed.

(** C7, amended. When the segment does not start with a base-10 integer
    (after leading white space and one optional sign no digit follows, so
    [parseInt] gives [NaN]), GET, PUT and DELETE by id answer 404
    not-found and leave the store as it is. *)
Theorem unparsable_segment_not_found (m : Method) (seg : CodeUnits)
    (b : JsObject) (st : Main.State) :
  m = GET \/ m = PUT \/ m = DELETE ->
  seg <> [] -> parseInt seg = None ->
  Main.serve (mkRequest m (users_id_path seg) b) st
  = (Some (Main.mkResponse 404 (Main.JMessage "User not found")), st)
  /\ Main.serve (mkRequest m (items_id_path seg) b) st
     = (Some (Main.mkResponse 404 (Main.JMessage "Item not found")), st).
Proof.
  intros Hm Hseg Hnan.
  pose proof (not_found_user st seg Hnan) as Hu.
  pose proof (not_found_item st seg Hnan) as Hi.
  destruct Hm as [-> | [-> | ->]].
  - rewrite serve_get_user, serve_get_item by assumption.
    unfold Main.get_user, Main.get_item. simpl param. by rewrite Hu, Hi.
  - rewrite serve_put_user, serve_put_item by assumption.
    unfold Main.put_user, Main.put_item. simpl param. by rewrite Hu, Hi.
  - rewrite serve_delete_user, serve_delete_item by assumption.
    unfold Main.delete_user, Main.delete_item. simpl param. by rewrite Hu, Hi.
Qed.

Lemma unparsable_segment_not_found_witness :
  parseInt (units "abc") = None
  /\ Main.serve (mkRequest DELETE (users_id_path (units "abc")) []) Main.seed
     = (Some (Main.mkResponse 404 (Main.JMessage "User not found")), Main.seed)
  /\ Main.serve (mkRequest DELETE (items_id_path (units "abc")) []) Main.seed
     = (Some (Main.mkResponse 404 (Main.JMessage "Item not found")), Main.seed).
Proof.
  split; [reflexivity |].
  apply (unparsable_segment_not_found DELETE (units "abc") [] Main.seed).
  - right. right. reflexivity.
  - discriminate.
  - reflexivity.
Defined.

(** ** [index.js]: the routes without an [:id] *)

Lemma match_path_length pat : forall p ps,
  match_path pat p = Some ps -> length p = length pat.
Proof.
  induction pat as [| [text | name] pat IH]; intros [| seg p] ps H; simpl in H;
    try discriminate; [reflexivity | |].
  - destruct (same_text seg (units text)); [| discriminate].
    simpl. f_equal. eauto.
  - destruct seg; [discriminate |].
    destruct (match_path pat p) eqn:Hm; [| discriminate].
    simpl. f_equal. eauto.
Qed.

(** A pattern without parameters binds none. *)
Lemma match_path_literal pat : Forall literal pat ->
  forall p ps, match_path pat p = Some ps -> ps = [].
Proof.
  induction 1 as [| [text | name] pat Hl _ IH]; intros [| seg p] ps H; simpl in H;
    try discriminate; try contradiction.
  - by injection H as <-.
  - destruct (same_text seg (units text)); [eauto | discriminate].
Qed.

Lemma literal_get : Forall literal (parse_pattern "/api/v1/items/get").
Proof. repeat constructor. Qed.

Lemma literal_put : Forall literal (parse_pattern "/api/v1/items/put").
Proof. repeat constructor. Qed.

(** C10. The patterns [/api/v1/items/get] and [/api/v1/items/put] bind
    no [id]; with [req.params.id] undefined both handlers answer 404
    [Item not found] and leave the store; and so does the server for every
    GET, respectively PUT, that matches the pattern. *)
Theorem index_get_put_always_not_found (req : Request) (st : Index.State) :
  let not_found := Index.mkResponse 404 (Index.JMessage "Item not found") in
  (forall ps, match_path (parse_pattern "/api/v1/items/get") (path req) = Some ps
              \/ match_path (parse_pattern "/api/v1/items/put") (path req) = Some ps ->
              param ps "id" = None)
  /\ (forall ps, param ps "id" = None ->
      Index.get_item ps (body req) st = (not_found, st)
      /\ Index.put_item ps (body req) st = (not_found, st))
  /\ (method req = GET ->
      is_Some (match_path (parse_pattern "/api/v1/items/get") (path req)) ->
      Index.serve req st = (Some not_found, st))
  /\ (method req = PUT ->
      is_Some (match_path (parse_pattern "/api/v1/items/put") (path req)) ->
      Index.serve req st = (Some not_found, st)).
Proof.
  intros not_found.
  assert (Hhandlers : forall ps, param ps "id" = None ->
            Index.get_item ps (body req) st = (not_found, st)
            /\ Index.put_item ps (body req) st = (not_found, st)).
  { intros ps Hid. unfold Index.get_item, Index.put_item.
    rewrite Hid. change (parseInt_param None) with (@None Z).
    by rewrite find_by_id_NaN. }
  split; [| split; [exact Hhandlers | split]].
  - intros ps [H | H].
    + by rewrite (match_path_literal _ literal_get _ _ H).
    + by rewrite (match_path_literal _ literal_put _ _ H).
  - intros Hm [ps Hps]. destruct req as [m p b]. cbn [method path body] in *. subst m.
    pose proof (match_path_length _ _ _ Hps) as Hlen.
    pose proof (match_path_literal _ literal_get _ _ Hps) as ->.
    unfold Index.serve, Index.app. cbn [dispatch method path body].
    destruct (decide (GET = GET)); [| congruence].
    destruct (match_path (parse_pattern "/api/v1/items") p) as [ps' |] eqn:Hshort.
    { apply match_path_length in Hshort. rewrite Hshort in Hlen. discriminate. }
    rewrite Hps. by rewrite (proj1 (Hhandlers [] eq_refl)).
  - intros Hm [ps Hps]. destruct req as [m p b]. cbn [method path body] in *. subst m.
    pose proof (match_path_literal _ literal_put _ _ Hps) as ->.
    unfold Index.serve, Index.app. cbn [dispatch method path body].
    destruct (decide (GET = PUT)); [congruence |].
    destruct (decide (POST = PUT)); [congruence |].
    destruct (decide (PUT = PUT)); [| congruence].
    rewrite Hps. by rewrite (proj2 (Hhandlers [] eq_refl)).
Qed.

Lemma index_get_put_always_not_found_witness :
  Index.serve (req_get "/api/v1/items/get") Index.seed
  = (Some (Index.mkResponse 404 (Index.JMessage "Item not found")), Index.seed)
  /\ Index.serve (req_put "/api/v1/items/put" [("name", VStr "z")]) Index.seed
     = (Some (Index.mkResponse 404 (Index.JMessage "Item not found")), Index.seed).
Proof.
  split.
  - pose proof (index_get_put_always_not_found (req_get "/api/v1/items/get")
                  Index.seed) as (_ & _ & Hget & _).
    apply Hget; [reflexivity | vm_compute; eauto].
  - pose proof (index_get_put_always_not_found
                  (req_put "/api/v1/items/put" [("name", VStr "z")])
                  Index.seed) as (_ & _ & _ & Hput).
    apply Hput; [reflexivity | vm_compute; eauto].
Defined.

(** ** Ids assigned from the length *)

(** A property of the state that every handler a request can reach
    preserves is preserved by serving the request. *)
Lemma dispatch_preserves {State Response : Type} (P : State -> Prop)
    (routes : list (@Route State Response)) (req : Request) (st : State) :
  Forall (fun rt => rt.1.1 = method req ->
                    forall ps b s, P s -> P (snd (rt.2 ps b s))) routes ->
  P st -> P (snd (dispatch routes req st)).
Proof.
  intros Hall Hst. induction Hall as [| [[m pat] h] routes Hh _ IH]; [exact Hst |].
  cbn [dispatch]. destruct (decide (m = method req)) as [Hm |]; [| exact IH].
  destruct (match_path (parse_pattern pat) (path req)) as [ps |]; [| exact IH].
  specialize (Hh Hm ps (body req) st Hst). simpl in Hh.
  by destruct (h ps (body req) st).
Qed.

Lemma run_preserves {State Response : Type} (P : State -> Prop)
    (routes : list (@Route State Response)) (reqs : list Request) :
  (forall req st, req ∈ reqs -> P st -> P (snd (dispatch routes req st))) ->
  forall st, P st -> P (snd (run routes reqs st)).
Proof.
  induction reqs as [| req reqs IH]; intros Hstep st Hst; [exact Hst |].
  cbn [run].
  pose proof (Hstep req st ltac:(left) Hst) as Hone.
  destruct (dispatch routes req st) as [r st1]. simpl in Hone.
  assert (Hrest : P (snd (run routes reqs st1))).
  { apply IH; [| exact Hone]. intros req' st' Hin. apply Hstep. by right. }
  by destruct (run routes reqs st1).
Qed.

(** Without a DELETE the items keep the ids 1, 2, ..., in order. *)
Lemma items_stay_dense req st :
  method req <> DELETE ->
  dense Main.Item.id (Main.items st) ->
  dense Main.Item.id (Main.items (snd (Main.serve req st))).
Proof.
  intros Hm. unfold Main.serve, Main.app.
  apply (dispatch_preserves (fun s => dense Main.Item.id (Main.items s))).
  repeat apply Forall_cons_2; try apply Forall_nil_2;
    cbn [fst snd]; intros Hmeth ps b s Hs; try congruence.
  - exact Hs.
  - unfold Main.get_user. by destruct (find_by_id _ _ _) as [[? ?] |].
  - unfold Main.post_user. by destruct (Main.user_fields_missing b).
  - unfold Main.put_user. destruct (find_by_id _ _ _) as [[? ?] |]; [| done].
    by destruct (Main.user_fields_missing b).
  - exact Hs.
  - unfold Main.get_item. by destruct (find_by_id _ _ _) as [[? ?] |].
  - unfold Main.post_item. destruct (Main.item_fields_missing b); [done |].
    by apply dense_push.
  - unfold Main.put_item.
    destruct (find_by_id _ _ _) as [[i it] |] eqn:Hfind; [| done].
    destruct (Main.item_fields_missing b); [done |].
    apply find_by_id_Some in Hfind as (Hi & _).
    by eapply dense_overwrite.
Qed.

Lemma seed_items_dense : dense Main.Item.id (Main.items Main.seed).
Proof. intros [| [| i]] it; simpl; intros [= <-]; reflexivity. Qed.

(** The items kind keeps its ids pairwise distinct under any requests
    other than DELETE, whatever their bodies. *)
Lemma items_ids_distinct_without_delete reqs :
  Forall (fun req => method req <> DELETE) reqs ->
  NoDup (Main.Item.id <$> Main.items (snd (run Main.app reqs Main.seed))).
Proof.
  intros Hreqs. apply dense_NoDup.
  apply (run_preserves (fun s => dense Main.Item.id (Main.items s)));
    [| apply seed_items_dense].
  intros req st Hin. apply items_stay_dense.
  rewrite Forall_forall in Hreqs. by apply Hreqs.
Qed.

(** C1 fails on the users collection. The seed user has id 10 in a
    collection of length 1; the ninth create finds length 9 and assigns
    id 10 again. *)
Theorem users_ninth_create_repeats_seed_id :
  let '(replies, st) := run Main.app nine_users Main.seed in
  Forall (fun reply => exists r, reply = Some r /\ Main.status r = 201%nat) replies
  /\ Main.User.id <$> Main.users st = [10; 2; 3; 4; 5; 6; 7; 8; 9; 10]
  /\ ~ NoDup (Main.User.id <$> Main.users st).
Proof.
  vm_compute run. split; [| split].
  - repeat constructor; eexists; split; reflexivity.
  - reflexivity.
  - intros Hnd. apply NoDup_cons in Hnd as [Hnotin _].
    apply Hnotin. set_solver.
Qed.

(** ** Create, then fetch by the id returned *)

(** When no entity already carries the id the create assigns, the GET
    by that id answers 200 with the entity just created. *)
Lemma user_round_trip_when_id_free b st :
  provides user_required b ->
  next_id (Main.users st) ∉ Main.User.id <$> Main.users st ->
  let u := user_from (next_id (Main.users st)) b in
  let st' := Main.set_users st (Main.users st ++ [u]) in
  Main.serve (req_post "/api/v1/users" b) st
  = (Some (Main.mkResponse 201 (Main.JUser u)), st')
  /\ Main.serve (mkRequest GET (users_id_path (decimal_segment (Main.User.id u))) []) st'
     = (Some (Main.mkResponse 200 (Main.JUser u)), st').
Proof.
  intros Hok Hfree u st'. split.
  - exact (serve_post_user_ok b st Hok).
  - rewrite serve_get_user.
    + unfold Main.get_user, parseInt_param. simpl param. simpl param_string.
      rewrite parseInt_decimal_segment.
      change (Main.users st') with (Main.users st ++ [u]).
      pose proof (find_by_id_snoc_fresh Main.User.id (Main.users st) u Hfree) as Hf.
      change (Main.User.id u) with (next_id (Main.users st)) in Hf.
      by rewrite Hf.
    + intros Hnil. pose proof (parseInt_decimal_segment (Main.User.id u)) as Hp.
      rewrite Hnil in Hp. discriminate.
Qed.

Lemma item_round_trip_when_id_free b st :
  provides item_required b ->
  next_id (Main.items st) ∉ Main.Item.id <$> Main.items st ->
  let it := item_from (next_id (Main.items st)) b in
  let st' := Main.set_items st (Main.items st ++ [it]) in
  Main.serve (req_post "/api/v1/items" b) st
  = (Some (Main.mkResponse 201 (Main.JItem it)), st')
  /\ Main.serve (mkRequest GET (items_id_path (decimal_segment (Main.Item.id it))) []) st'
     = (Some (Main.mkResponse 200 (Main.JItem it)), st').
Proof.
  intros Hok Hfree it st'. split.
  - exact (serve_post_item_ok b st Hok).
  - rewrite serve_get_item.
    + unfold Main.get_item, parseInt_param. simpl param. simpl param_string.
      rewrite parseInt_decimal_segment.
      change (Main.items st') with (Main.items st ++ [it]).
      pose proof (find_by_id_snoc_fresh Main.Item.id (Main.items st) it Hfree) as Hf.
      change (Main.Item.id it) with (next_id (Main.items st)) in Hf.
      by rewrite Hf.
    + intros Hnil. pose proof (parseInt_decimal_segment (Main.Item.id it)) as Hp.
      rewrite Hnil in Hp. discriminate.
Qed.

(** C2 fails on the users collection, by the id collision of C1. The
    ninth create answers 201 with a user of id 10; the GET by that id
    answers 200 with the seed user [theUser], not the user created. *)
Theorem users_fetch_after_ninth_create_returns_seed :
  exists created st9 fetched,
    Main.serve (req_post "/api/v1/users" (user_body "u10")) eight_users_in
    = (Some (Main.mkResponse 201 (Main.JUser created)), st9)
    /\ created = user_from 10 (user_body "u10")
    /\ Main.serve (mkRequest GET (users_id_path (decimal_segment (Main.User.id created))) [])
         st9
       = (Some (Main.mkResponse 200 (Main.JUser fetched)), st9)
    /\ Main.User.username fetched = VStr "theUser"
    /\ fetched <> created.
Proof.
  eexists _, _, _. split; [vm_compute; reflexivity |].
  split; [reflexivity |]. split; [vm_compute; reflexivity |].
  split; [reflexivity | discriminate].
Qed.

(** ** Delete *)

(** With pairwise distinct ids, the DELETE of an id that is present
    answers 200, removes the entity at the position found (the others
    keep their order), and the GET by that id then answers 404. *)
Lemma delete_user_when_ids_distinct seg n st :
  seg <> [] -> parseInt seg = Some n ->
  NoDup (Main.User.id <$> Main.users st) ->
  n ∈ Main.User.id <$> Main.users st ->
  exists i u st',
    Main.users st !! i = Some u /\ Main.User.id u = n
    /\ Main.serve (mkRequest DELETE (users_id_path seg) []) st
       = (Some (Main.mkResponse 200 (Main.JMessage "User deleted")), st')
    /\ Main.users st' = take i (Main.users st) ++ drop (S i) (Main.users st)
    /\ S (length (Main.users st')) = length (Main.users st)
    /\ Main.serve (mkRequest GET (users_id_path seg) []) st'
       = (Some (Main.mkResponse 404 (Main.JMessage "User not found")), st').
Proof.
  intros Hseg Hparse Hnd Hin.
  destruct (find_by_id_present Main.User.id n _ Hin) as [[i u] Hfind].
  pose proof (find_by_id_delete_unique _ _ _ _ _ Hnd Hfind) as Hgone.
  pose proof (find_by_id_Some _ _ _ _ _ Hfind) as (Hi & [= ->] & _).
  exists i, u, (Main.set_users st (delete i (Main.users st))).
  split; [exact Hi |]. split; [reflexivity |]. split; [| split; [| split]].
  - rewrite serve_delete_user by assumption.
    unfold Main.delete_user, parseInt_param. simpl param. simpl param_string.
    by rewrite Hparse, Hfind.
  - apply delete_take_drop.
  - simpl. rewrite length_delete by eauto.
    apply lookup_lt_Some in Hi. lia.
  - rewrite serve_get_user by assumption.
    unfold Main.get_user, parseInt_param. simpl param. simpl param_string.
    rewrite Hparse. simpl Main.users. by rewrite Hgone.
Qed.

(** C4 fails on the users collection, by the id collision of C1. With
    two users of id 10 in the collection, DELETE of 10 answers 200 and
    removes one entity, and the GET of 10 that follows answers 200 with
    the other one, not 404. *)
Theorem users_get_after_delete_still_found :
  exists st' u,
    10 ∈ Main.User.id <$> Main.users nine_users_in
    /\ Main.serve (req_delete "/api/v1/users/10") nine_users_in
       = (Some (Main.mkResponse 200 (Main.JMessage "User deleted")), st')
    /\ S (length (Main.users st')) = length (Main.users nine_users_in)
    /\ Main.serve (req_get "/api/v1/users/10") st'
       = (Some (Main.mkResponse 200 (Main.JUser u)), st')
    /\ u = user_from 10 (user_body "u10").
Proof.
  eexists _, _. split; [vm_compute; set_solver |].
  split; [vm_compute; reflexivity |].
  split; [reflexivity |]. split; [vm_compute; reflexivity | reflexivity].
Qed.

(** ** Scenarios on the seed *)

(** GET of user 10 answers 200 with the seed record, GET of user 999
    answers 404. *)
Example scenario_get_user :
  fst (Main.serve (req_get "/api/v1/users/10") Main.seed)
  = Some (Main.mkResponse 200
            (Main.JUser (user_from 10
               [ ("username", VStr "theUser"); ("firstName", VStr "John");
                 ("lastName", VStr "James"); ("email", VStr "john@email.com");
                 ("password", VStr "12345"); ("phone", VStr "12345") ])))
  /\ fst (Main.serve (req_get "/api/v1/users/999") Main.seed)
     = Some (Main.mkResponse 404 (Main.JMessage "User not found")).
Proof. split; reflexivity. Qed.

(** A PUT of user 10 without [email] answers 400, and the GET that
    follows shows the record as it was. *)
Example scenario_put_invalid :
  run Main.app [ mkRequest PUT (users_id_path (units "10")) no_email;
                 req_get "/api/v1/users" ] Main.seed
  = ([ Some (Main.mkResponse 400 (Main.JMessage "All fields are required"));
       Some (Main.mkResponse 200 (Main.JUsers (Main.users Main.seed))) ],
     Main.seed).
Proof. reflexivity. Qed.

(** DELETE of item 1, then the list: the other seeded item only. *)
Example scenario_delete_item :
  fst (run Main.app [ req_delete "/api/v1/items/1"; req_get "/api/v1/items" ] Main.seed)
  = [ Some (Main.mkResponse 200 (Main.JMessage "Item deleted"));
      Some (Main.mkResponse 200
              (Main.JItems [ {| Main.Item.id := 2; Main.Item.name := VStr "Item 2";
                               Main.Item.discription := VStr "product info" |} ])) ].
Proof. reflexivity. Qed.

(** * Further properties of the handlers *)

(** ** Reasoning over every route of a table *)

(** What holds of the framework's reply when nothing matches, and of
    the outcome of every handler the request can reach, holds of the
    outcome of serving the request. *)
Lemma dispatch_cases {State Response : Type} (Q : option Response * State -> Prop)
    (routes : list (@Route State Response)) (req : Request) (st : State) :
  Q (None, st) ->
  Forall (fun rt => rt.1.1 = method req ->
                    forall ps, match_path (parse_pattern rt.1.2) (path req) = Some ps ->
                    forall r s, rt.2 ps (body req) st = (r, s) -> Q (Some r, s))
         routes ->
  Q (dispatch routes req st).
Proof.
  intros Hnone Hall. induction Hall as [| [[m pat] h] routes Hh _ IH]; [exact Hnone |].
  cbn [dispatch]. destruct (decide (m = method req)) as [Hm |]; [| exact IH].
  destruct (match_path (parse_pattern pat) (path req)) as [ps |] eqn:Hps; [| exact IH].
  destruct (h ps (body req) st) as [r s] eqn:Hrun. by eapply Hh.
Qed.

(** Opens the table of [main.js], resp. [index.js], into one goal per
    route, each with the equation of its handler's outcome. *)
Ltac main_routes Q :=
  unfold Main.serve, Main.app; apply (dispatch_cases Q);
  [ | repeat apply Forall_cons_2; try apply Forall_nil_2; cbn [fst snd];
      intros ?Hm ?ps ?Hps ?r ?s ?Hrun ].

Ltac index_routes Q :=
  unfold Index.serve, Index.app; apply (dispatch_cases Q);
  [ | repeat apply Forall_cons_2; try apply Forall_nil_2; cbn [fst snd];
      intros ?Hm ?ps ?Hps ?r ?s ?Hrun ].

Ltac open_handler H :=
  unfold Main.get_users, Main.get_user, Main.post_user, Main.put_user,
    Main.delete_user, Main.get_items, Main.get_item, Main.post_item,
    Main.put_item, Main.delete_item, Index.get_items, Index.get_item,
    Index.post_item, Index.put_item, Index.delete_item in H;
  repeat case_match; simplify_eq.

(** ** What no request does *)

(** X1. A GET never changes the state, whatever its path and body, in
    [main.js] and in [index.js]. *)
Theorem get_leaves_state (req : Request) (st : Main.State) (items : Index.State) :
  method req = GET ->
  snd (Main.serve req st) = st /\ snd (Index.serve req items) = items.
Proof.
  intros Hget. split.
  - main_routes (fun res : option Main.Response * Main.State => snd res = st);
      [reflexivity | ..]; try congruence; by open_handler Hrun.
  - index_routes (fun res : option Index.Response * Index.State => snd res = items);
      [reflexivity | ..]; try congruence; by open_handler Hrun.
Qed.

Lemma get_leaves_state_witness :
  snd (Main.serve (req_get "/api/v1/users/10") Main.seed) = Main.seed
  /\ snd (Index.serve (req_get "/api/v1/items") Index.seed) = Index.seed.
Proof.
  split.
  - apply (get_leaves_state (req_get "/api/v1/users/10") Main.seed Index.seed).
    reflexivity.
  - apply (get_leaves_state (req_get "/api/v1/items") Main.seed Index.seed).
    reflexivity.
Defined.

(** X2. No request changes both collections of [main.js]: after any
    request the users or the items are as they were. *)
Theorem one_collection_per_request (req : Request) (st : Main.State) :
  Main.users (snd (Main.serve req st)) = Main.users st
  \/ Main.items (snd (Main.serve req st)) = Main.items st.
Proof.
  main_routes (fun res : option Main.Response * Main.State =>
                 Main.users (snd res) = Main.users st
                 \/ Main.items (snd res) = Main.items st);
    [by left | ..]; open_handler Hrun; simpl; auto.
Qed.

Lemma ids_step_same m ids : ids_step m ids ids.
Proof. by left. Qed.

Lemma ids_step_overwrite {A : Type} (ident : A -> Z) m store i e e' :
  store !! i = Some e -> ident e' = ident e ->
  ids_step m (ident <$> store) (ident <$> <[i := e']> store).
Proof.
  intros Hi Hid. left. rewrite list_fmap_insert. apply list_insert_id.
  by rewrite list_lookup_fmap, Hi, Hid.
Qed.

Lemma ids_step_push {A : Type} (ident : A -> Z) store e :
  ident e = next_id store ->
  ids_step POST (ident <$> store) (ident <$> store ++ [e]).
Proof.
  intros Hid. right. left. split; [reflexivity |].
  rewrite fmap_app, length_fmap. simpl. by rewrite Hid.
Qed.

Lemma ids_step_delete {A : Type} (ident : A -> Z) store i e :
  store !! i = Some e ->
  ids_step DELETE (ident <$> store) (ident <$> delete i store).
Proof.
  intros Hi. right. right. split; [reflexivity |]. exists i.
  rewrite length_fmap, list_fmap_delete. split; [by eapply lookup_lt_Some | reflexivity].
Qed.

(** X3. No request rewrites an id. After any request the ids of each
    collection, in order, are the ids before; or, for a POST, those
    followed by the length plus one; or, for a DELETE, those with one
    position removed. *)
Theorem ids_only_appended_or_removed (req : Request) (st : Main.State) :
  ids_step (method req) (Main.User.id <$> Main.users st)
    (Main.User.id <$> Main.users (snd (Main.serve req st)))
  /\ ids_step (method req) (Main.Item.id <$> Main.items st)
       (Main.Item.id <$> Main.items (snd (Main.serve req st))).
Proof.
  main_routes (fun res : option Main.Response * Main.State =>
    ids_step (method req) (Main.User.id <$> Main.users st)
      (Main.User.id <$> Main.users (snd res))
    /\ ids_step (method req) (Main.Item.id <$> Main.items st)
         (Main.Item.id <$> Main.items (snd res)));
    [split; apply ids_step_same | ..];
    open_handler Hrun; rewrite <- Hm; simpl; (split; try apply ids_step_same);
    try match goal with
        | H : find_by_id _ _ _ = Some _ |- _ => apply find_by_id_Some in H as (? & _)
        end.
  - by apply ids_step_push.
  - by eapply ids_step_overwrite.
  - by eapply ids_step_delete.
  - by apply ids_step_push.
  - by eapply ids_step_overwrite.
  - by eapply ids_step_delete.
Qed.

(** ** Every stored entity passed the validation *)

Lemma js_or_truthy a : truthy (js_or a (VNum 1)) = true.
Proof. unfold js_or. by destruct (truthy a) eqn:Ha. Qed.

Lemma valid_user_from n b :
  Main.user_fields_missing b = false -> valid_user (user_from n b) = true.
Proof.
  unfold Main.user_fields_missing, valid_user. simpl.
  rewrite js_or_truthy, andb_true_r, !orb_false_iff, !negb_false_iff.
  intros (((((-> & ->) & ->) & ->) & ->) & ->). reflexivity.
Qed.

Lemma valid_item_from n b :
  Main.item_fields_missing b = false -> valid_item (item_from n b) = true.
Proof.
  unfold Main.item_fields_missing, valid_item. simpl.
  rewrite !orb_false_iff, !negb_false_iff. intros (-> & ->). reflexivity.
Qed.

Lemma serve_keeps_valid req st : all_valid st -> all_valid (snd (Main.serve req st)).
Proof.
  intros [Hu Hi].
  main_routes (fun res : option Main.Response * Main.State => all_valid (snd res));
    [by split | ..]; open_handler Hrun; split; simpl; try assumption.
  - apply Forall_app. split; [assumption |]. repeat constructor.
    by apply (valid_user_from (next_id (Main.users st))).
  - apply Forall_insert; [assumption |].
    by apply (valid_user_from (Main.User.id _)).
  - by apply Forall_delete.
  - apply Forall_app. split; [assumption |]. repeat constructor.
    by apply (valid_item_from (next_id (Main.items st))).
  - apply Forall_insert; [assumption |].
    by apply (valid_item_from (Main.Item.id _)).
  - by apply Forall_delete.
Qed.

(** X4. Whatever requests have been served since the start, every user
    in the collection has its six required fields and its [userStatus]
    truthy, and every item its [name] and [discription]. *)
Theorem stored_entities_are_valid (reqs : list Request) :
  Forall (fun u => valid_user u = true) (Main.users (snd (run Main.app reqs Main.seed)))
  /\ Forall (fun it => valid_item it = true)
       (Main.items (snd (run Main.app reqs Main.seed))).
Proof.
  apply (run_preserves all_valid).
  - intros req st _. apply serve_keeps_valid.
  - split; repeat constructor.
Qed.

(** ** The by-id handlers, by the outcome of the lookup *)

Lemma parseInt_Some_nonempty seg z : parseInt seg = Some z -> seg <> [].
Proof. intros Hp ->. discriminate. Qed.

Ltac by_lookup :=
  unfold Main.get_user, Main.put_user, Main.delete_user, Main.get_item,
    Main.put_item, Main.delete_item, parseInt_param;
  simpl param; simpl param_string.

(** The target is not found: 404 from GET, PUT and DELETE alike. *)
Lemma serve_user_not_found m seg b st :
  m = GET \/ m = PUT \/ m = DELETE -> seg <> [] ->
  find_by_id Main.User.id (parseInt seg) (Main.users st) = None ->
  Main.serve (mkRequest m (users_id_path seg) b) st
  = (Some (Main.mkResponse 404 (Main.JMessage "User not found")), st).
Proof.
  intros [-> | [-> | ->]] Hseg Hfind.
  - rewrite serve_get_user by assumption. by_lookup. by rewrite Hfind.
  - rewrite serve_put_user by assumption. by_lookup. by rewrite Hfind.
  - rewrite serve_delete_user by assumption. by_lookup. by rewrite Hfind.
Qed.

Lemma serve_item_not_found m seg b st :
  m = GET \/ m = PUT \/ m = DELETE -> seg <> [] ->
  find_by_id Main.Item.id (parseInt seg) (Main.items st) = None ->
  Main.serve (mkRequest m (items_id_path seg) b) st
  = (Some (Main.mkResponse 404 (Main.JMessage "Item not found")), st).
Proof.
  intros [-> | [-> | ->]] Hseg Hfind.
  - rewrite serve_get_item by assumption. by_lookup. by rewrite Hfind.
  - rewrite serve_put_item by assumption. by_lookup. by rewrite Hfind.
  - rewrite serve_delete_item by assumption. by_lookup. by rewrite Hfind.
Qed.

Lemma serve_get_user_found seg b st i u :
  seg <> [] -> find_by_id Main.User.id (parseInt seg) (Main.users st) = Some (i, u) ->
  Main.serve (mkRequest GET (users_id_path seg) b) st
  = (Some (Main.mkResponse 200 (Main.JUser u)), st).
Proof. intros Hseg Hfind. rewrite serve_get_user by assumption. by_lookup. by rewrite Hfind. Qed.

Lemma serve_get_item_found seg b st i it :
  seg <> [] -> find_by_id Main.Item.id (parseInt seg) (Main.items st) = Some (i, it) ->
  Main.serve (mkRequest GET (items_id_path seg) b) st
  = (Some (Main.mkResponse 200 (Main.JItem it)), st).
Proof. intros Hseg Hfind. rewrite serve_get_item by assumption. by_lookup. by rewrite Hfind. Qed.

Lemma serve_delete_user_found seg b st i u :
  seg <> [] -> find_by_id Main.User.id (parseInt seg) (Main.users st) = Some (i, u) ->
  Main.serve (mkRequest DELETE (users_id_path seg) b) st
  = (Some (Main.mkResponse 200 (Main.JMessage "User deleted")),
     Main.set_users st (delete i (Main.users st))).
Proof.
  intros Hseg Hfind. rewrite serve_delete_user by assumption. by_lookup. by rewrite Hfind.
Qed.

Lemma serve_delete_item_found seg b st i it :
  seg <> [] -> find_by_id Main.Item.id (parseInt seg) (Main.items st) = Some (i, it) ->
  Main.serve (mkRequest DELETE (items_id_path seg) b) st
  = (Some (Main.mkResponse 200 (Main.JMessage "Item deleted")),
     Main.set_items st (delete i (Main.items st))).
Proof.
  intros Hseg Hfind. rewrite serve_delete_item by assumption. by_lookup. by rewrite Hfind.
Qed.

Section LookupFacts.
Context {A : Type} (ident : A -> Z).

Lemma find_by_id_absent n (store : list A) :
  n ∉ ident <$> store -> find_by_id ident (Some n) store = None.
Proof.
  intros Hn. apply find_by_id_None. intros e He [= ->].
  apply Hn. by apply list_elem_of_fmap_2.
Qed.

(** The entity found is the first that carries the id. *)
Lemma find_by_id_first n (store : list A) :
  n ∈ ident <$> store ->
  exists i e, find_by_id ident (Some n) store = Some (i, e)
    /\ store !! i = Some e /\ ident e = n
    /\ forall j e', store !! j = Some e' -> (j < i)%nat -> ident e' <> n.
Proof.
  intros [[i e] Hfind]%find_by_id_present. exists i, e.
  pose proof (find_by_id_Some _ _ _ _ _ Hfind) as (Hi & [= ->] & Hfirst).
  split_and!; try done. intros j e' Hj Hlt Heq.
  apply (Hfirst j e' Hj Hlt). by rewrite Heq.
Qed.

Lemma find_by_id_gone n (store : list A) :
  find_by_id ident (Some n) store = None -> n ∉ ident <$> store.
Proof.
  intros Hnone (e & -> & He)%list_elem_of_fmap.
  by apply (proj1 (find_by_id_None _ _ _) Hnone e He).
Qed.
End LookupFacts.

(** X5. When the segment parses to an integer that is the id of no
    entity, GET, PUT and DELETE answer 404 not-found and leave the
    state; for PUT this holds whatever the body, valid or not. *)
Theorem absent_id_not_found (m : Method) (seg : CodeUnits) (n : Z)
    (b : JsObject) (st : Main.State) :
  m = GET \/ m = PUT \/ m = DELETE ->
  parseInt seg = Some n ->
  (n ∉ Main.User.id <$> Main.users st ->
   Main.serve (mkRequest m (users_id_path seg) b) st
   = (Some (Main.mkResponse 404 (Main.JMessage "User not found")), st))
  /\ (n ∉ Main.Item.id <$> Main.items st ->
      Main.serve (mkRequest m (items_id_path seg) b) st
      = (Some (Main.mkResponse 404 (Main.JMessage "Item not found")), st)).
Proof.
  intros Hm Hp. pose proof (parseInt_Some_nonempty _ _ Hp) as Hseg. split; intros Hn.
  - apply serve_user_not_found; try assumption.
    rewrite Hp. by apply find_by_id_absent.
  - apply serve_item_not_found; try assumption.
    rewrite Hp. by apply find_by_id_absent.
Qed.

Lemma absent_id_not_found_witness :
  Main.serve (mkRequest PUT (users_id_path (units "999")) no_email) Main.seed
  = (Some (Main.mkResponse 404 (Main.JMessage "User not found")), Main.seed).
Proof.
  apply (absent_id_not_found PUT (units "999") 999 no_email Main.seed).
  - right. left. reflexivity.
  - reflexivity.
  - apply (bool_decide_unpack _). vm_compute. exact I.
Defined.

(** X6. When the segment parses to an id some entity carries, GET
    answers 200 with the first entity of the collection that carries it,
    whatever the body, and leaves the state. *)
Theorem get_returns_first_with_id (seg : CodeUnits) (n : Z) (st : Main.State) :
  parseInt seg = Some n ->
  (n ∈ Main.User.id <$> Main.users st ->
   exists i u,
     Main.users st !! i = Some u /\ Main.User.id u = n
     /\ (forall j u', Main.users st !! j = Some u' -> (j < i)%nat -> Main.User.id u' <> n)
     /\ forall b, Main.serve (mkRequest GET (users_id_path seg) b) st
                  = (Some (Main.mkResponse 200 (Main.JUser u)), st))
  /\ (n ∈ Main.Item.id <$> Main.items st ->
      exists i it,
        Main.items st !! i = Some it /\ Main.Item.id it = n
        /\ (forall j it', Main.items st !! j = Some it' -> (j < i)%nat ->
                          Main.Item.id it' <> n)
        /\ forall b, Main.serve (mkRequest GET (items_id_path seg) b) st
                     = (Some (Main.mkResponse 200 (Main.JItem it)), st)).
Proof.
  intros Hp. pose proof (parseInt_Some_nonempty _ _ Hp) as Hseg. split; intros Hn.
  - destruct (find_by_id_first Main.User.id n _ Hn) as (i & u & Hfind & Hi & Hid & Hfirst).
    exists i, u. split_and!; try done.
    intros b. eapply serve_get_user_found; [assumption |]. by rewrite Hp.
  - destruct (find_by_id_first Main.Item.id n _ Hn) as (i & it & Hfind & Hi & Hid & Hfirst).
    exists i, it. split_and!; try done.
    intros b. eapply serve_get_item_found; [assumption |]. by rewrite Hp.
Qed.

Lemma get_returns_first_with_id_witness :
  exists i it,
    Main.items Main.seed !! i = Some it /\ Main.Item.id it = 2
    /\ (forall j it', Main.items Main.seed !! j = Some it' -> (j < i)%nat ->
                      Main.Item.id it' <> 2)
    /\ forall b, Main.serve (mkRequest GET (items_id_path (units "2")) b) Main.seed
                 = (Some (Main.mkResponse 200 (Main.JItem it)), Main.seed).
Proof.
  apply (get_returns_first_with_id (units "2") 2 Main.seed).
  - reflexivity.
  - apply (bool_decide_unpack _). vm_compute. exact I.
Defined.

(** ** Update, then read *)

(** X7. After a PUT that succeeds, the GET with the same segment
    answers 200 with the entity the PUT returned: the id the segment
    parses to and the fields of the body. *)
Theorem put_then_get_returns_update (seg : CodeUnits) (b : JsObject) (st : Main.State) :
  (is_Some (find_by_id Main.User.id (parseInt seg) (Main.users st)) ->
   provides user_required b ->
   exists n st',
     parseInt seg = Some n
     /\ Main.serve (mkRequest PUT (users_id_path seg) b) st
        = (Some (Main.mkResponse 200 (Main.JUser (user_from n b))), st')
     /\ Main.serve (mkRequest GET (users_id_path seg) []) st'
        = (Some (Main.mkResponse 200 (Main.JUser (user_from n b))), st'))
  /\ (is_Some (find_by_id Main.Item.id (parseInt seg) (Main.items st)) ->
      provides item_required b ->
      exists n st',
        parseInt seg = Some n
        /\ Main.serve (mkRequest PUT (items_id_path seg) b) st
           = (Some (Main.mkResponse 200 (Main.JItem (item_from n b))), st')
        /\ Main.serve (mkRequest GET (items_id_path seg) []) st'
           = (Some (Main.mkResponse 200 (Main.JItem (item_from n b))), st')).
Proof.
  split.
  - intros [[i u] Hfind] Hok.
    pose proof (find_by_id_Some _ _ _ _ _ Hfind) as (_ & Hp & _).
    pose proof (parseInt_Some_nonempty _ _ Hp) as Hseg.
    pose proof (find_by_id_overwrite _ _ _ _ _ (user_from (Main.User.id u) b)
                  Hfind eq_refl) as Hagain.
    exists (Main.User.id u),
      (Main.set_users st (<[i := user_from (Main.User.id u) b]> (Main.users st))).
    split; [exact Hp |]. split.
    + rewrite serve_put_user by assumption.
      by rewrite (put_user_ok _ _ _ _ _ Hfind Hok).
    + by apply (serve_get_user_found seg [] (Main.set_users st _) i).
  - intros [[i it] Hfind] Hok.
    pose proof (find_by_id_Some _ _ _ _ _ Hfind) as (_ & Hp & _).
    pose proof (parseInt_Some_nonempty _ _ Hp) as Hseg.
    pose proof (find_by_id_overwrite _ _ _ _ _ (item_from (Main.Item.id it) b)
                  Hfind eq_refl) as Hagain.
    exists (Main.Item.id it),
      (Main.set_items st (<[i := item_from (Main.Item.id it) b]> (Main.items st))).
    split; [exact Hp |]. split.
    + rewrite serve_put_item by assumption.
      by rewrite (put_item_ok _ _ _ _ _ Hfind Hok).
    + by apply (serve_get_item_found seg [] (Main.set_items st _) i).
Qed.

Lemma put_then_get_returns_update_witness :
  exists n st',
    parseInt (units "2") = Some n
    /\ Main.serve (mkRequest PUT (items_id_path (units "2")) renamed) Main.seed
       = (Some (Main.mkResponse 200 (Main.JItem (item_from n renamed))), st')
    /\ Main.serve (mkRequest GET (items_id_path (units "2")) []) st'
       = (Some (Main.mkResponse 200 (Main.JItem (item_from n renamed))), st').
Proof.
  apply (put_then_get_returns_update (units "2") renamed Main.seed).
  - vm_compute. eauto.
  - apply item_fields_missing_provides. reflexivity.
Defined.

(** ** Delete *)

(** X8. When the segment parses to an id some entity carries, DELETE
    answers 200 and removes the first entity that carries it and nothing
    else: the entities before keep their positions, those after move up
    by one, and the other collection is untouched. Ids need not be
    distinct for this. *)
Theorem delete_removes_first_with_id (seg : CodeUnits) (n : Z) (b : JsObject)
    (st : Main.State) :
  parseInt seg = Some n ->
  (n ∈ Main.User.id <$> Main.users st ->
   exists i u,
     Main.users st !! i = Some u /\ Main.User.id u = n
     /\ (forall j u', Main.users st !! j = Some u' -> (j < i)%nat -> Main.User.id u' <> n)
     /\ Main.serve (mkRequest DELETE (users_id_path seg) b) st
        = (Some (Main.mkResponse 200 (Main.JMessage "User deleted")),
           {| Main.users := take i (Main.users st) ++ drop (S i) (Main.users st);
              Main.items := Main.items st |}))
  /\ (n ∈ Main.Item.id <$> Main.items st ->
      exists i it,
        Main.items st !! i = Some it /\ Main.Item.id it = n
        /\ (forall j it', Main.items st !! j = Some it' -> (j < i)%nat ->
                          Main.Item.id it' <> n)
        /\ Main.serve (mkRequest DELETE (items_id_path seg) b) st
           = (Some (Main.mkResponse 200 (Main.JMessage "Item deleted")),
              {| Main.users := Main.users st;
                 Main.items := take i (Main.items st) ++ drop (S i) (Main.items st) |})).
Proof.
  intros Hp. pose proof (parseInt_Some_nonempty _ _ Hp) as Hseg. split; intros Hn.
  - destruct (find_by_id_first Main.User.id n _ Hn) as (i & u & Hfind & Hi & Hid & Hfirst).
    exists i, u. split_and!; try done.
    rewrite <- Hp in Hfind. rewrite (serve_delete_user_found _ _ _ _ _ Hseg Hfind).
    unfold Main.set_users. by rewrite delete_take_drop.
  - destruct (find_by_id_first Main.Item.id n _ Hn) as (i & it & Hfind & Hi & Hid & Hfirst).
    exists i, it. split_and!; try done.
    rewrite <- Hp in Hfind. rewrite (serve_delete_item_found _ _ _ _ _ Hseg Hfind).
    unfold Main.set_items. by rewrite delete_take_drop.
Qed.

Lemma delete_removes_first_with_id_witness :
  exists i u,
    Main.users nine_users_in !! i = Some u /\ Main.User.id u = 10
    /\ (forall j u', Main.users nine_users_in !! j = Some u' -> (j < i)%nat ->
                     Main.User.id u' <> 10)
    /\ Main.serve (mkRequest DELETE (users_id_path (units "10")) []) nine_users_in
       = (Some (Main.mkResponse 200 (Main.JMessage "User deleted")),
          {| Main.users := take i (Main.users nine_users_in)
                           ++ drop (S i) (Main.users nine_users_in);
             Main.items := Main.items nine_users_in |}).
Proof.
  apply (delete_removes_first_with_id (units "10") 10 [] nine_users_in).
  - reflexivity.
  - apply (bool_decide_unpack _). vm_compute. exact I.
Defined.

Section DeleteUnique.
Context {A : Type} (ident : A -> Z).

Lemma NoDup_ids_delete (store : list A) i :
  NoDup (ident <$> store) -> NoDup (ident <$> delete i store).
Proof.
  intros Hnd. rewrite list_fmap_delete.
  exact (sublist_NoDup _ _ Hnd (sublist_delete _ _)).
Qed.
End DeleteUnique.

(** X9. In a collection whose ids are pairwise distinct, after the
    DELETE of an id that is present the ids are still distinct, the
    deleted id is no longer among them, and GET, PUT and DELETE by it
    answer 404. *)
Theorem delete_then_not_found (m : Method) (seg : CodeUnits) (n : Z)
    (b : JsObject) (st : Main.State) :
  m = GET \/ m = PUT \/ m = DELETE ->
  parseInt seg = Some n ->
  (NoDup (Main.User.id <$> Main.users st) -> n ∈ Main.User.id <$> Main.users st ->
   let st' := snd (Main.serve (mkRequest DELETE (users_id_path seg) []) st) in
   NoDup (Main.User.id <$> Main.users st')
   /\ (n ∉ Main.User.id <$> Main.users st')
   /\ Main.serve (mkRequest m (users_id_path seg) b) st'
      = (Some (Main.mkResponse 404 (Main.JMessage "User not found")), st'))
  /\ (NoDup (Main.Item.id <$> Main.items st) -> n ∈ Main.Item.id <$> Main.items st ->
      let st' := snd (Main.serve (mkRequest DELETE (items_id_path seg) []) st) in
      NoDup (Main.Item.id <$> Main.items st')
      /\ (n ∉ Main.Item.id <$> Main.items st')
      /\ Main.serve (mkRequest m (items_id_path seg) b) st'
         = (Some (Main.mkResponse 404 (Main.JMessage "Item not found")), st')).
Proof.
  intros Hm Hp. pose proof (parseInt_Some_nonempty _ _ Hp) as Hseg.
  split; intros Hnd Hn.
  - destruct (find_by_id_present Main.User.id n _ Hn) as [[i u] Hfind].
    pose proof (find_by_id_delete_unique _ _ _ _ _ Hnd Hfind) as Hgone.
    rewrite <- Hp in Hfind. rewrite (serve_delete_user_found _ _ _ _ _ Hseg Hfind).
    simpl. split_and!.
    + by apply NoDup_ids_delete.
    + by apply find_by_id_gone.
    + apply serve_user_not_found; try assumption. by rewrite Hp.
  - destruct (find_by_id_present Main.Item.id n _ Hn) as [[i it] Hfind].
    pose proof (find_by_id_delete_unique _ _ _ _ _ Hnd Hfind) as Hgone.
    rewrite <- Hp in Hfind. rewrite (serve_delete_item_found _ _ _ _ _ Hseg Hfind).
    simpl. split_and!.
    + by apply NoDup_ids_delete.
    + by apply find_by_id_gone.
    + apply serve_item_not_found; try assumption. by rewrite Hp.
Qed.

Lemma delete_then_not_found_witness :
  let st' := snd (Main.serve (mkRequest DELETE (items_id_path (units "1")) []) Main.seed) in
  NoDup (Main.Item.id <$> Main.items st')
  /\ (1 ∉ Main.Item.id <$> Main.items st')
  /\ Main.serve (mkRequest GET (items_id_path (units "1")) []) st'
     = (Some (Main.mkResponse 404 (Main.JMessage "Item not found")), st').
Proof.
  apply (delete_then_not_found GET (units "1") 1 [] Main.seed).
  - left. reflexivity.
  - reflexivity.
  - apply (bool_decide_unpack _). vm_compute. exact I.
  - apply (bool_decide_unpack _). vm_compute. exact I.
Defined.

(** ** Create, then read *)

(** X10. When no entity carries the id a valid create assigns, the GET
    by the decimal numeral of the returned id answers 200 with exactly
    the entity the create returned. *)
Theorem create_then_get_when_id_free (b : JsObject) (st : Main.State) :
  (provides user_required b ->
   next_id (Main.users st) ∉ Main.User.id <$> Main.users st ->
   exists u st',
     u = user_from (Z.of_nat (length (Main.users st)) + 1) b
     /\ Main.serve (req_post "/api/v1/users" b) st
        = (Some (Main.mkResponse 201 (Main.JUser u)), st')
     /\ Main.serve (mkRequest GET (users_id_path (decimal_segment (Main.User.id u))) [])
          st'
        = (Some (Main.mkResponse 200 (Main.JUser u)), st'))
  /\ (provides item_required b ->
      next_id (Main.items st) ∉ Main.Item.id <$> Main.items st ->
      exists it st',
        it = item_from (Z.of_nat (length (Main.items st)) + 1) b
        /\ Main.serve (req_post "/api/v1/items" b) st
           = (Some (Main.mkResponse 201 (Main.JItem it)), st')
        /\ Main.serve (mkRequest GET (items_id_path (decimal_segment (Main.Item.id it))) [])
             st'
           = (Some (Main.mkResponse 200 (Main.JItem it)), st')).
Proof.
  split; intros Hok Hfree.
  - destruct (user_round_trip_when_id_free b st Hok Hfree) as [Hpost Hget].
    eexists _, _. split; [reflexivity |]. split; [exact Hpost | exact Hget].
  - destruct (item_round_trip_when_id_free b st Hok Hfree) as [Hpost Hget].
    eexists _, _. split; [reflexivity |]. split; [exact Hpost | exact Hget].
Qed.

Lemma create_then_get_when_id_free_witness :
  exists u st',
    u = user_from (Z.of_nat (length (Main.users Main.seed)) + 1) (user_body "ann")
    /\ Main.serve (req_post "/api/v1/users" (user_body "ann")) Main.seed
       = (Some (Main.mkResponse 201 (Main.JUser u)), st')
    /\ Main.serve (mkRequest GET (users_id_path (decimal_segment (Main.User.id u))) [])
         st'
       = (Some (Main.mkResponse 200 (Main.JUser u)), st').
Proof.
  apply (create_then_get_when_id_free (user_body "ann") Main.seed).
  - apply user_fields_missing_provides. reflexivity.
  - apply (bool_decide_unpack _). vm_compute. exact I.
Defined.

(** X11. As long as no DELETE has been served since the start, the ids
    of the items are pairwise distinct, and a valid create of an item
    followed by the GET of the returned id answers the item created. *)
Theorem items_without_delete (reqs : list Request) (b : JsObject) :
  Forall (fun req => method req <> DELETE) reqs ->
  let st := snd (run Main.app reqs Main.seed) in
  NoDup (Main.Item.id <$> Main.items st)
  /\ (provides item_required b ->
      exists it st',
        Main.serve (req_post "/api/v1/items" b) st
        = (Some (Main.mkResponse 201 (Main.JItem it)), st')
        /\ Main.serve (mkRequest GET (items_id_path (decimal_segment (Main.Item.id it))) [])
             st'
           = (Some (Main.mkResponse 200 (Main.JItem it)), st')).
Proof.
  intros Hreqs st.
  assert (Hdense : dense Main.Item.id (Main.items st)).
  { apply (run_preserves (fun s => dense Main.Item.id (Main.items s)));
      [| apply seed_items_dense].
    intros req s Hin. apply items_stay_dense.
    rewrite Forall_forall in Hreqs. by apply Hreqs. }
  split; [by apply dense_NoDup |].
  intros Hok.
  destruct (item_round_trip_when_id_free b st Hok (dense_fresh _ _ Hdense))
    as [Hpost Hget].
  eexists _, _. split; [exact Hpost | exact Hget].
Qed.

Lemma items_without_delete_witness :
  let st := snd (run Main.app [ req_post "/api/v1/items" widget;
                                mkRequest PUT (items_id_path (units "3")) renamed ]
                   Main.seed) in
  NoDup (Main.Item.id <$> Main.items st)
  /\ (provides item_required widget ->
      exists it st',
        Main.serve (req_post "/api/v1/items" widget) st
        = (Some (Main.mkResponse 201 (Main.JItem it)), st')
        /\ Main.serve (mkRequest GET (items_id_path (decimal_segment (Main.Item.id it))) [])
             st'
           = (Some (Main.mkResponse 200 (Main.JItem it)), st')).
Proof.
  apply (items_without_delete
           [ req_post "/api/v1/items" widget;
             mkRequest PUT (items_id_path (units "3")) renamed ] widget).
  repeat constructor; discriminate.
Defined.

(** ** Create after delete *)

(** X12. In a collection of items with ids 1..len in order, after the
    DELETE of any item but the last, the next valid create assigns the
    id the last item already has: the ids are no longer distinct. *)
Theorem create_after_delete_repeats_id (seg : CodeUnits) (n : Z) (b : JsObject)
    (st : Main.State) :
  dense Main.Item.id (Main.items st) ->
  parseInt seg = Some n ->
  1 <= n < Z.of_nat (length (Main.items st)) ->
  provides item_required b ->
  let st1 := snd (Main.serve (mkRequest DELETE (items_id_path seg) []) st) in
  let st2 := snd (Main.serve (req_post "/api/v1/items" b) st1) in
  exists old,
    old ∈ Main.items st1
    /\ Main.Item.id old = Z.of_nat (length (Main.items st))
    /\ last (Main.items st2) = Some (item_from (Z.of_nat (length (Main.items st))) b)
    /\ ~ NoDup (Main.Item.id <$> Main.items st2).
Proof.
  intros Hdense Hp Hn Hok st1 st2.
  pose proof (parseInt_Some_nonempty _ _ Hp) as Hseg.
  assert (Hin : n ∈ Main.Item.id <$> Main.items st).
  { destruct (lookup_lt_is_Some_2 (Main.items st) (Z.to_nat (n - 1)) ltac:(lia))
      as [it Hit].
    apply list_elem_of_fmap. exists it. split; [| by eapply list_elem_of_lookup_2].
    rewrite (Hdense _ _ Hit). lia. }
  destruct (find_by_id_first Main.Item.id n _ Hin) as (i & it & Hfind & Hi & Hid & _).
  pose proof (Hdense _ _ Hi) as Hpos.
  destruct (lookup_lt_is_Some_2 (Main.items st) (length (Main.items st) - 1)
              ltac:(lia)) as [old Hold].
  pose proof (Hdense _ _ Hold) as Hold_id.
  assert (Hst1 : Main.items st1 = delete i (Main.items st)).
  { subst st1. rewrite <- Hp in Hfind.
    by rewrite (serve_delete_item_found _ _ _ _ _ Hseg Hfind). }
  assert (Hlen1 : length (Main.items st1) = (length (Main.items st) - 1)%nat).
  { rewrite Hst1, length_delete by eauto. lia. }
  assert (Hold1 : Main.items st1 !! (length (Main.items st) - 2)%nat = Some old).
  { rewrite Hst1, list_lookup_delete_ge by lia. rewrite <- Hold. f_equal. lia. }
  assert (Hst2 : Main.items st2
                 = Main.items st1 ++ [item_from (Z.of_nat (length (Main.items st))) b]).
  { subst st2. rewrite (serve_post_item_ok b st1 Hok). simpl.
    unfold next_id. rewrite Hlen1. do 3 f_equal. lia. }
  exists old. split_and!.
  - by eapply list_elem_of_lookup_2.
  - rewrite Hold_id. lia.
  - rewrite Hst2. apply last_snoc.
  - rewrite Hst2, fmap_app. intros Hnd. apply NoDup_app in Hnd as (_ & Hdisj & _).
    apply (Hdisj (Z.of_nat (length (Main.items st)))).
    + apply list_elem_of_fmap. exists old. split; [lia | by eapply list_elem_of_lookup_2].
    + simpl. by left.
Qed.

Lemma create_after_delete_repeats_id_witness :
  let st1 := snd (Main.serve (mkRequest DELETE (items_id_path (units "1")) []) Main.seed) in
  let st2 := snd (Main.serve (req_post "/api/v1/items" widget) st1) in
  exists old,
    old ∈ Main.items st1
    /\ Main.Item.id old = Z.of_nat (length (Main.items Main.seed))
    /\ last (Main.items st2)
       = Some (item_from (Z.of_nat (length (Main.items Main.seed))) widget)
    /\ ~ NoDup (Main.Item.id <$> Main.items st2).
Proof.
  apply (create_after_delete_repeats_id (units "1") 1 widget Main.seed).
  - apply seed_items_dense.
  - reflexivity.
  - simpl. lia.
  - apply item_fields_missing_provides. reflexivity.
Defined.

(** ** What [parseInt] reads of a segment *)

Lemma parseInt_sign_and_rest s :
  parseInt s
  = match digit_prefix (sign_and_rest (trim_start s)).2 with
    | [] => None
    | ds => Some ((sign_and_rest (trim_start s)).1 * mathInt ds)
    end.
Proof.
  unfold parseInt, sign_and_rest.
  destruct (trim_start s) as [| x rest]; [reflexivity |].
  destruct x as [| p]; [reflexivity |].
  do 6 (destruct p as [p | p |]; try reflexivity).
Qed.

Lemma trim_start_app s t : trim_start s <> [] -> trim_start (s ++ t) = trim_start s ++ t.
Proof.
  induction s as [| c s IH]; simpl; [contradiction |].
  destruct (is_white_space c); [exact IH | reflexivity].
Qed.

Lemma digit_prefix_app r c t :
  is_digit c = false -> digit_prefix (r ++ c :: t) = digit_prefix r.
Proof.
  intros Hc. induction r as [| d r IH]; simpl; [by rewrite Hc |].
  destruct (is_digit d); [by rewrite IH | reflexivity].
Qed.

Lemma sign_and_rest_app s t :
  s <> [] ->
  sign_and_rest (s ++ t) = ((sign_and_rest s).1, (sign_and_rest s).2 ++ t).
Proof.
  intros Hs. destruct s as [| x rest]; [contradiction |]. simpl app.
  destruct x as [| p]; [reflexivity |].
  do 6 (destruct p as [p | p |]; try reflexivity).
Qed.

(** Text after the leading integer does not change what is read. *)
Lemma parseInt_ignores_tail s z c t :
  parseInt s = Some z -> is_digit c = false -> parseInt (s ++ c :: t) = Some z.
Proof.
  intros Hp Hc.
  assert (Htrim : trim_start s <> []).
  { intros Hnil. rewrite parseInt_sign_and_rest, Hnil in Hp. discriminate. }
  rewrite parseInt_sign_and_rest in *.
  rewrite trim_start_app, sign_and_rest_app by assumption. simpl.
  by rewrite digit_prefix_app.
Qed.

Lemma parseInt_leading_white_space w s :
  is_white_space w = true -> parseInt (w :: s) = parseInt s.
Proof. intros Hw. unfold parseInt. simpl. by rewrite Hw. Qed.

(** The by-id handlers look at the segment through [parseInt] only. *)
Lemma serve_by_parse m seg seg' b st :
  m = GET \/ m = PUT \/ m = DELETE -> seg <> [] -> seg' <> [] ->
  parseInt seg = parseInt seg' ->
  Main.serve (mkRequest m (users_id_path seg) b) st
  = Main.serve (mkRequest m (users_id_path seg') b) st
  /\ Main.serve (mkRequest m (items_id_path seg) b) st
     = Main.serve (mkRequest m (items_id_path seg') b) st.
Proof.
  intros [-> | [-> | ->]] Hseg Hseg' Heq.
  - rewrite !serve_get_user, !serve_get_item by assumption. by_lookup. by rewrite Heq.
  - rewrite !serve_put_user, !serve_put_item by assumption. by_lookup. by rewrite Heq.
  - rewrite !serve_delete_user, !serve_delete_item by assumption. by_lookup. by rewrite Heq.
Qed.

Lemma parseInt_leading_white_spaces ws s :
  Forall (fun w => is_white_space w = true) ws -> parseInt (ws ++ s) = parseInt s.
Proof.
  induction 1 as [| w ws Hw _ IH]; [reflexivity |].
  simpl app. by rewrite (parseInt_leading_white_space w _ Hw).
Qed.

(** X13. GET, PUT and DELETE by id read the segment as its leading
    integer. For a segment that parses: white space put before it; text
    put after it that starts with a non-digit; and both at once; each
    gives the same response and the same state as the segment itself,
    for users and for items. *)
Theorem id_read_as_leading_integer (m : Method) (seg : CodeUnits) (z : Z)
    (b : JsObject) (st : Main.State) :
  m = GET \/ m = PUT \/ m = DELETE ->
  parseInt seg = Some z ->
  (forall ws, Forall (fun w => is_white_space w = true) ws ->
     Main.serve (mkRequest m (users_id_path (ws ++ seg)) b) st
     = Main.serve (mkRequest m (users_id_path seg) b) st
     /\ Main.serve (mkRequest m (items_id_path (ws ++ seg)) b) st
        = Main.serve (mkRequest m (items_id_path seg) b) st)
  /\ (forall c tail, is_digit c = false ->
       Main.serve (mkRequest m (users_id_path (seg ++ c :: tail)) b) st
       = Main.serve (mkRequest m (users_id_path seg) b) st
       /\ Main.serve (mkRequest m (items_id_path (seg ++ c :: tail)) b) st
          = Main.serve (mkRequest m (items_id_path seg) b) st)
  /\ (forall ws c tail, Forall (fun w => is_white_space w = true) ws ->
       is_digit c = false ->
       Main.serve (mkRequest m (users_id_path (ws ++ seg ++ c :: tail)) b) st
       = Main.serve (mkRequest m (users_id_path seg) b) st
       /\ Main.serve (mkRequest m (items_id_path (ws ++ seg ++ c :: tail)) b) st
          = Main.serve (mkRequest m (items_id_path seg) b) st).
Proof.
  intros Hm Hp. pose proof (parseInt_Some_nonempty _ _ Hp) as Hseg.
  assert (Hsame : forall seg', parseInt seg' = Some z ->
            Main.serve (mkRequest m (users_id_path seg') b) st
            = Main.serve (mkRequest m (users_id_path seg) b) st
            /\ Main.serve (mkRequest m (items_id_path seg') b) st
               = Main.serve (mkRequest m (items_id_path seg) b) st).
  { intros seg' Hp'. apply serve_by_parse; try assumption.
    - by eapply parseInt_Some_nonempty.
    - by rewrite Hp, Hp'. }
  split_and!.
  - intros ws Hws. apply Hsame. by rewrite parseInt_leading_white_spaces.
  - intros c tail Hc. apply Hsame. by apply parseInt_ignores_tail.
  - intros ws c tail Hws Hc. apply Hsame.
    rewrite parseInt_leading_white_spaces by assumption.
    by apply parseInt_ignores_tail.
Qed.

Lemma id_read_as_leading_integer_witness :
  Main.serve (mkRequest GET (users_id_path (units " 10")) []) Main.seed
  = Main.serve (mkRequest GET (users_id_path (units "10")) []) Main.seed
  /\ Main.serve (mkRequest GET (users_id_path (units "10abc")) []) Main.seed
     = Main.serve (mkRequest GET (users_id_path (units "10")) []) Main.seed
  /\ Main.serve (mkRequest DELETE (users_id_path (units " 10px")) []) Main.seed
     = Main.serve (mkRequest DELETE (users_id_path (units "10")) []) Main.seed
  /\ fst (Main.serve (mkRequest GET (users_id_path (units "10abc")) []) Main.seed)
     = Some (Main.mkResponse 200
               (Main.JUser (user_from 10
                  [ ("username", VStr "theUser"); ("firstName", VStr "John");
                    ("lastName", VStr "James"); ("email", VStr "john@email.com");
                    ("password", VStr "12345"); ("phone", VStr "12345") ]))).
Proof.
  pose proof (id_read_as_leading_integer GET (units "10") 10 [] Main.seed
                (or_introl eq_refl) eq_refl) as (Hbefore & Hafter & _).
  pose proof (id_read_as_leading_integer DELETE (units "10") 10 [] Main.seed
                (or_intror (or_intror eq_refl)) eq_refl) as (_ & _ & Hboth).
  split_and!.
  - apply (Hbefore [32%N]). repeat constructor.
  - apply (Hafter 97%N (units "bc")). reflexivity.
  - apply (Hboth [32%N] 112%N (units "x")); [repeat constructor | reflexivity].
  - etransitivity;
      [exact (f_equal fst (proj1 (Hafter 97%N (units "bc") eq_refl))) | reflexivity].
Defined.

(** ** [index.js]: create, delete and what stays *)

Ltac abstract_index_handlers :=
  unfold Index.serve, Index.app;
  generalize Index.get_items; generalize Index.get_item;
  generalize Index.post_item; generalize Index.put_item;
  generalize Index.delete_item; intros.

Lemma index_serve_post b items :
  Index.serve (req_post "/api/v1/items" b) items
  = let '(r, items') := Index.post_item [] b items in (Some r, items').
Proof. abstract_index_handlers. vm_compute. reflexivity. Qed.

Lemma index_serve_delete seg b items : seg <> [] ->
  Index.serve (mkRequest DELETE (items_id_path seg) b) items
  = let '(r, items') := Index.delete_item [("id", seg)] b items in (Some r, items').
Proof.
  intros Hseg. destruct seg as [| c s]; [contradiction |].
  abstract_index_handlers. vm_compute. reflexivity.
Qed.

(** X14. In [index.js] a POST whose [name] is truthy answers 201 with
    the item of id length + 1 and that name, appended at the end, whether
    or not the body has other fields; a POST whose [name] is absent or
    falsy answers 400 [Name is required] and leaves the collection. *)
Theorem index_create (b : JsObject) (items : Index.State) :
  (truthy (prop b "name") = true ->
   Index.serve (req_post "/api/v1/items" b) items
   = (Some (Index.mkResponse 201
              (Index.JItem (index_item_from (Z.of_nat (length items) + 1) b))),
      items ++ [index_item_from (Z.of_nat (length items) + 1) b]))
  /\ (truthy (prop b "name") = false ->
      Index.serve (req_post "/api/v1/items" b) items
      = (Some (Index.mkResponse 400 (Index.JMessage "Name is required")), items)).
Proof.
  split; intros Hname; rewrite index_serve_post; unfold Index.post_item;
    by rewrite Hname.
Qed.

Lemma index_create_witness :
  Index.serve (req_post "/api/v1/items" name_only) Index.seed
  = (Some (Index.mkResponse 201 (Index.JItem (index_item_from 3 name_only))),
     Index.seed ++ [index_item_from 3 name_only])
  /\ Index.serve (req_post "/api/v1/items" [("discription", VStr "x")]) Index.seed
     = (Some (Index.mkResponse 400 (Index.JMessage "Name is required")), Index.seed).
Proof.
  split.
  - apply (index_create name_only Index.seed). reflexivity.
  - apply (index_create [("discription", VStr "x")] Index.seed). reflexivity.
Defined.

(** The two handlers behind literal routes never find a target. *)
Lemma index_literal_handlers ps b items r items' :
  ps = [] ->
  Index.get_item ps b items = (r, items') \/ Index.put_item ps b items = (r, items') ->
  items' = items.
Proof.
  intros -> Hrun. unfold Index.get_item, Index.put_item in Hrun. simpl param in Hrun.
  change (parseInt_param None) with (@None Z) in Hrun.
  rewrite find_by_id_NaN in Hrun. by destruct Hrun as [[= _ <-] | [= _ <-]].
Qed.

(** X15. No request to [index.js] changes an item that is stored: after
    any request the collection is the one before; or, for a POST, that
    one followed by the item of id length + 1 with the body's name; or,
    for a DELETE, that one with one position removed. *)
Theorem index_items_never_modified (req : Request) (items : Index.State) :
  let items' := snd (Index.serve req items) in
  items' = items
  \/ (method req = POST
      /\ items' = items ++ [index_item_from (Z.of_nat (length items) + 1) (body req)])
  \/ (method req = DELETE /\ exists i, (i < length items)%nat /\ items' = delete i items).
Proof.
  index_routes (fun res : option Index.Response * Index.State =>
    snd res = items
    \/ (method req = POST
        /\ snd res = items ++ [index_item_from (Z.of_nat (length items) + 1) (body req)])
    \/ (method req = DELETE
        /\ exists i, (i < length items)%nat /\ snd res = delete i items));
    [by left | ..]; simpl snd.
  - left. by open_handler Hrun.
  - left. apply (index_literal_handlers ps (body req) items r);
      [exact (match_path_literal _ literal_get _ _ Hps) | by left].
  - open_handler Hrun; [by left |]. right. left. by split.
  - left. apply (index_literal_handlers ps (body req) items r);
      [exact (match_path_literal _ literal_put _ _ Hps) | by right].
  - open_handler Hrun; [| by left]. right. right. split; [done |].
    match goal with
    | H : find_by_id _ _ _ = Some _ |- _ => apply find_by_id_Some in H as (Hi & _)
    end.
    eexists. split; [by eapply lookup_lt_Some | reflexivity].
Qed.

(** X16. In [index.js] DELETE is the one handler that takes an id from
    the path. When the segment parses to an id some item carries, it
    answers 200 and removes the first item that carries it, the others
    keeping their order; when the segment does not parse, or parses to
    the id of no item, it answers 404 and leaves the collection. *)
Theorem index_delete_by_id (seg : CodeUnits) (b : JsObject) (items : Index.State) :
  seg <> [] ->
  (forall n, parseInt seg = Some n -> n ∈ Index.Item.id <$> items ->
     exists i it,
       items !! i = Some it /\ Index.Item.id it = n
       /\ (forall j it', items !! j = Some it' -> (j < i)%nat -> Index.Item.id it' <> n)
       /\ Index.serve (mkRequest DELETE (items_id_path seg) b) items
          = (Some (Index.mkResponse 200 (Index.JMessage "Item deleted")),
             take i items ++ drop (S i) items))
  /\ (parseInt seg = None
      \/ (exists n, parseInt seg = Some n /\ n ∉ Index.Item.id <$> items) ->
      Index.serve (mkRequest DELETE (items_id_path seg) b) items
      = (Some (Index.mkResponse 404 (Index.JMessage "Item not found")), items)).
Proof.
  intros Hseg. rewrite index_serve_delete by assumption.
  unfold Index.delete_item, parseInt_param. simpl param. simpl param_string. split.
  - intros n Hp Hn.
    destruct (find_by_id_first Index.Item.id n _ Hn) as (i & it & Hfind & Hi & Hid & Hfirst).
    exists i, it. split_and!; try done.
    rewrite <- delete_take_drop. by rewrite Hp, Hfind.
  - intros [-> | (n & -> & Hn)].
    + by rewrite find_by_id_NaN.
    + by rewrite find_by_id_absent.
Qed.

Lemma index_delete_by_id_witness :
  (forall n, parseInt (units "2") = Some n -> n ∈ Index.Item.id <$> Index.seed ->
     exists i it,
       Index.seed !! i = Some it /\ Index.Item.id it = n
       /\ (forall j it', Index.seed !! j = Some it' -> (j < i)%nat ->
                         Index.Item.id it' <> n)
       /\ Index.serve (mkRequest DELETE (items_id_path (units "2")) []) Index.seed
          = (Some (Index.mkResponse 200 (Index.JMessage "Item deleted")),
             take i Index.seed ++ drop (S i) Index.seed))
  /\ Index.serve (mkRequest DELETE (items_id_path (units "get")) []) Index.seed
     = (Some (Index.mkResponse 404 (Index.JMessage "Item not found")), Index.seed).
Proof.
  split.
  - apply (index_delete_by_id (units "2") [] Index.seed). discriminate.
  - apply (index_delete_by_id (units "get") [] Index.seed); [discriminate |].
    left. reflexivity.
Defined.

Lemma index_stays_dense req items :
  method req <> DELETE ->
  dense Index.Item.id items -> dense Index.Item.id (snd (Index.serve req items)).
Proof.
  intros Hnd Hd.
  index_routes (fun res : option Index.Response * Index.State =>
                  dense Index.Item.id (snd res));
    [exact Hd | ..]; simpl snd; try congruence.
  - by open_handler Hrun.
  - by rewrite (index_literal_handlers ps (body req) items r s
                  (match_path_literal _ literal_get _ _ Hps) (or_introl Hrun)).
  - open_handler Hrun; [done |]. by apply dense_push.
  - by rewrite (index_literal_handlers ps (body req) items r s
                  (match_path_literal _ literal_put _ _ Hps) (or_intror Hrun)).
Qed.

(** X17. In [index.js], as long as no DELETE has been served since the
    start, the item at position i has id i + 1, so the ids are pairwise
    distinct. *)
Theorem index_ids_distinct_without_delete (reqs : list Request) :
  Forall (fun req => method req <> DELETE) reqs ->
  dense Index.Item.id (snd (run Index.app reqs Index.seed))
  /\ NoDup (Index.Item.id <$> snd (run Index.app reqs Index.seed)).
Proof.
  intros Hreqs.
  assert (Hd : dense Index.Item.id (snd (run Index.app reqs Index.seed))).
  { apply (run_preserves (dense Index.Item.id)).
    - intros req items Hin. apply index_stays_dense.
      rewrite Forall_forall in Hreqs. by apply Hreqs.
    - intros [| [| i]] it; simpl; intros [= <-]; reflexivity. }
  split; [exact Hd | by apply dense_NoDup].
Qed.

Lemma index_ids_distinct_without_delete_witness :
  NoDup (Index.Item.id <$>
           snd (run Index.app [ req_post "/api/v1/items" name_only;
                                req_put "/api/v1/items/put" name_only;
                                req_post "/api/v1/items" name_only ] Index.seed)).
Proof.
  apply (index_ids_distinct_without_delete
           [ req_post "/api/v1/items" name_only;
             req_put "/api/v1/items/put" name_only;
             req_post "/api/v1/items" name_only ]).
  repeat constructor; discriminate.
Defined.

(** ** [index.js]: paths under [/api/v1/items/] that reach no handler *)

Lemma index_match_literal (last : string) seg :
  match_path [Lit "api"; Lit "v1"; Lit "items"; Lit last] (items_id_path seg)
  = if same_text seg (units last) then Some [] else None.
Proof.
  change (items_id_path seg) with [units "api"; units "v1"; units "items"; seg].
  cbn [match_path].
  change (same_text (units "api") (units "api")) with true.
  change (same_text (units "v1") (units "v1")) with true.
  change (same_text (units "items") (units "items")) with true.
  cbv iota. by destruct (same_text seg (units last)).
Qed.

(** X18. [index.js] has no handler for reading or updating an item by
    id: a GET of [/api/v1/items/<seg>] where the segment is not the word
    [get], and a PUT where it is not the word [put] (in any letter case),
    match no route; the framework answers and the collection stays. *)
Theorem index_no_get_or_put_by_id (seg : CodeUnits) (b : JsObject)
    (items : Index.State) :
  (same_text seg (units "get") = false ->
   Index.serve (mkRequest GET (items_id_path seg) b) items = (None, items))
  /\ (same_text seg (units "put") = false ->
      Index.serve (mkRequest PUT (items_id_path seg) b) items = (None, items)).
Proof.
  split; intros Hseg; abstract_index_handlers; cbn [dispatch method path body].
  - change (parse_pattern "/api/v1/items/get")
      with [Lit "api"; Lit "v1"; Lit "items"; Lit "get"].
    rewrite index_match_literal, Hseg. reflexivity.
  - change (parse_pattern "/api/v1/items/put")
      with [Lit "api"; Lit "v1"; Lit "items"; Lit "put"].
    rewrite index_match_literal, Hseg. reflexivity.
Qed.

Lemma index_no_get_or_put_by_id_witness :
  Index.serve (mkRequest GET (items_id_path (units "1")) []) Index.seed
  = (None, Index.seed)
  /\ Index.serve (mkRequest PUT (items_id_path (units "1")) name_only) Index.seed
     = (None, Index.seed).
Proof.
  split.
  - apply (index_no_get_or_put_by_id (units "1") [] Index.seed). reflexivity.
  - apply (index_no_get_or_put_by_id (units "1") name_only Index.seed). reflexivity.
Defined.
